(** * artillery-engine-mqtt: a shallow embedding of [index.js]

    The source holds two engines.  The first (a constructor function with
    prototype methods) is the request/acknowledge engine with the pending
    map [responseHandlers]; it is embedded in [Module Legacy].  The second
    (the [class MqttEngine]) is the publish engine with hooks, loops and
    teardown; it is embedded in [Module Engine].

    Conventions of the embedding.
    - JavaScript values are the inductive [value]; numbers are integers
      (fractions and NaN are outside the model).
    - Objects used as dictionaries are [gmap string _]; keys inherited from
      [Object.prototype] are outside the model.
    - Asynchronous code is run to its observable trace: every call that
      leaves the engine (event sink, console, transport, user processor,
      continuation) is an [event] appended in program order.
    - [debug(...)] calls write to a diagnostic channel only and are left
      out. *)

From stdpp Require Import base option list strings gmap pretty.
From Stdlib Require Import ZArith Lia Ascii.

Set Warnings "-register-all".

Open Scope Z_scope.
Open Scope string_scope.
Open Scope list_scope.

(* ===================================================================== *)
(** ** JavaScript values *)
(* ===================================================================== *)

Module JS.

Inductive value : Type :=
| VUndefined
| VNull
| VBool (b : bool)
| VNum (n : Z)
| VStr (s : string)
| VArr (items : list value)
| VObj (fields : list (string * value))
| VError (message : string).

(** [!!v] of JavaScript. *)
Definition truthy (v : value) : bool :=
  match v with
  | VUndefined | VNull => false
  | VBool b => b
  | VNum n => negb (Z.eqb n 0)
  | VStr s => negb (String.eqb s "")
  | VArr _ | VObj _ | VError _ => true
  end.

(** [a || b]. *)
Definition js_or (a b : value) : value := if truthy a then a else b.

(** [typeof v === "string"]. *)
Definition is_string (v : value) : bool :=
  match v with VStr _ => true | _ => false end.

(** Primitives are immutable; arrays and objects are shared references. *)
Definition is_primitive (v : value) : bool :=
  match v with
  | VArr _ | VObj _ | VError _ => false
  | _ => true
  end.

Fixpoint assoc (k : string) (fs : list (string * value)) : value :=
  match fs with
  | [] => VUndefined
  | (k', v) :: rest => if String.eqb k k' then v else assoc k rest
  end.

(** [v.k] for a [v] that is neither [null] nor [undefined]. *)
Definition get_prop (v : value) (k : string) : value :=
  match v with
  | VObj fs => assoc k fs
  | VError m => if String.eqb k "message" then VStr m else VUndefined
  | _ => VUndefined
  end.

Definition join_comma (parts : list string) : string :=
  match parts with
  | [] => ""
  | p :: ps => fold_left (fun acc q => String.append acc (String.append "," q)) ps p
  end.

(** [String(v)], which is also the property key [v] denotes in [o[v]]. *)
Fixpoint to_key (v : value) : string :=
  match v with
  | VUndefined => "undefined"
  | VNull => "null"
  | VBool true => "true"
  | VBool false => "false"
  | VNum n => pretty n
  | VStr s => s
  | VArr items =>
      join_comma
        (map (fun x => match x with
                       | VUndefined | VNull => ""
                       | _ => to_key x
                       end) items)
  | VObj _ => "[object Object]"
  | VError m => String.append "Error: " m
  end.

(** [_.concat] flattens its array arguments by one level and appends any
    other argument as a single element. *)
Definition concat_arg (v : value) : list value :=
  match v with
  | VArr items => items
  | _ => [v]
  end.

Definition lodash_concat (a b : value) : list value :=
  concat_arg a ++ concat_arg b.

End JS.

Import JS.

(* ===================================================================== *)
(** ** The publish engine ([class MqttEngine]) *)
(* ===================================================================== *)

Module Engine.

(** The transport handle as the engine uses it: [publish] and [end] report
    through a callback; [None] stands for a callback that is never
    invoked. *)
Record client : Type := Client {
  clientId : value;
  cl_publish : value -> value -> value -> option value;
  cl_end : option value
}.

(** The VU context: the variable mapping and the transport handle that
    [vuInit] stores under [context.mqtt]. *)
Record context : Type := Context {
  vars : gmap string value;
  mqtt : option client
}.

Definition set_var (k : string) (v : value) (c : context) : context :=
  {| vars := <[k := v]> (vars c); mqtt := mqtt c |}.

Definition set_mqtt (cl : client) (c : context) : context :=
  {| vars := vars c; mqtt := Some cl |}.

Inductive event : Type :=
| Emit (name : string) (args : list value)
| ConsoleLog (text : value)
| Think (duration : value)
| ProcessorCall (fn : string) (c : context)
| HookCall (fn : string) (topic payload : value) (c : context)
| HookReturn (fn : string) (err : value)
| MqttPublish (topic payload options : value)
| MqttEnd
| InitCallback (err : value) (c : option context)
| FinalCallback (err : value) (c : option context).

(** How a step function leaves: it invoked its continuation with no error
    and a context, or with an error (and perhaps a context), or never
    invoked it, or threw, or was still looping when the observation
    stopped. *)
Inductive outcome : Type :=
| Ok (c : context)
| Fail (err : value) (c : option context)
| Pending
| Throw (e : value)
| OutOfFuel.

Definition result : Type := list event * outcome.

(** A user function of the processor module.  One JavaScript function can
    be called as a step ([func(context, ee, next)]), as a beforeRequest
    hook ([func({topic, payload}, context, ee, next)]) and as a whileTrue
    predicate ([func(context, next)]).  Each view gives what the function
    sends to the event sink, the context and the request objects as it
    leaves them, and the argument it hands to its continuation ([None]:
    never invoked). *)
Record hook_run : Type := HookRun {
  hr_emitted : list (string * list value);
  hr_context : context;
  hr_topic : value;
  hr_payload : value;
  hr_reply : option value
}.

Record processor : Type := Processor {
  as_step : context -> list (string * list value) * context * bool;
  as_hook : value -> value -> context -> hook_run;
  as_pred : context -> list (string * list value) * context * option value
}.

(** What a user function sends to the event sink. *)
Definition emits (sent : list (string * list value)) : list event :=
  map (fun e => Emit e.1 e.2) sent.

(** A value shared by reference shows the callee's mutation; a primitive
    cannot be changed through the reference. *)
Definition after_mutation (before after : value) : value :=
  if is_primitive before then before else after.

Record publish_spec : Type := PublishSpec {
  p_topic : value;
  p_payload : value;
  p_options : value;
  p_beforeRequest : value
}.

Inductive request_spec : Type :=
| RequestSpec
    (rs_loop : option (list request_spec))
    (rs_count : option Z)
    (rs_loopValue : value)
    (rs_over : value)
    (rs_whileTrue : value)
    (rs_log : value)
    (rs_think : value)
    (rs_function : value)
    (rs_publish : option publish_spec).

(** A compiled step: fuel bounds the iterations of open-ended loops. *)
Definition task : Type := nat -> context -> result.

Definition type_error (msg : string) : value := VError (String.append "TypeError: " msg).

(** [A.waterfall]: each task receives the context its predecessor handed
    to the continuation; the first error (or a task that does not come
    back) ends the chain. *)
Fixpoint waterfall (tasks : list task) (fuel : nat) (c : context) : result :=
  match tasks with
  | [] => ([], Ok c)
  | t :: rest =>
      match t fuel c with
      | (tr, Ok c') =>
          let '(tr', o) := waterfall rest fuel c' in (tr ++ tr', o)
      | (tr, o) => (tr, o)
      end
  end.

(** [A.eachSeries]: the iteratee runs on the next item only from inside
    the [next] of the previous one; the first truthy error goes to the
    final callback at once. *)
Inductive series_result (S : Type) : Type :=
| SeriesDone (err : value) (st : S)
| SeriesPending
| SeriesThrow (e : value).
Arguments SeriesDone {S} err st.
Arguments SeriesPending {S}.
Arguments SeriesThrow {S} e.

Fixpoint eachSeries {S : Type} (items : list value)
    (iteratee : value -> S -> list event * series_result S) (st : S)
    : list event * series_result S :=
  match items with
  | [] => ([], SeriesDone VNull st)
  | x :: rest =>
      match iteratee x st with
      | (tr, SeriesDone err st') =>
          if truthy err then (tr, SeriesDone err st')
          else let '(tr', r) := eachSeries rest iteratee st' in (tr ++ tr', r)
      | (tr, r) => (tr, r)
      end
  end.

(** *** Loops

    Modelled from the spec: the helper [createLoopWithCount] lives in
    artillery's [engine_util], not under src/.  Section 4.1: with a
    non-empty [overValues] the elements are visited in order and the
    predicate is consulted after each iteration; else with a count
    [C >= 0] the inner steps run [C] times with the 0-based index bound;
    else the loop is open-ended and the predicate is consulted after each
    iteration. *)
Record loop_opts : Type := LoopOpts {
  loopValue : value;
  overValues : value;
  whileTrue : option processor
}.

Section Loop.
Variable steps : list task.
Variable opts : loop_opts.

Definition bind_loop (v : value) (c : context) : context :=
  set_var (to_key (loopValue opts)) v c.

(** The predicate after an iteration: [Some true] to go on. *)
Definition consult (c : context) : list event * context * option bool :=
  match whileTrue opts with
  | None => ([], c, Some true)
  | Some w =>
      let '(sent, c', b) := as_pred w c in (emits sent, c', truthy <$> b)
  end.

Fixpoint loop_over (items : list value) (fuel : nat) (c : context) : result :=
  match items with
  | [] => ([], Ok c)
  | x :: rest =>
      match waterfall steps fuel (bind_loop x c) with
      | (tr, Ok c1) =>
          match consult c1 with
          | (tr1, c2, Some true) =>
              let '(tr2, o) := loop_over rest fuel c2 in (tr ++ tr1 ++ tr2, o)
          | (tr1, c2, Some false) => (tr ++ tr1, Ok c2)
          | (tr1, _, None) => (tr ++ tr1, Pending)
          end
      | (tr, o) => (tr, o)
      end
  end.

Fixpoint loop_count (remaining : nat) (i : Z) (fuel : nat) (c : context)
    : result :=
  match remaining with
  | O => ([], Ok c)
  | S k =>
      match waterfall steps fuel (bind_loop (VNum i) c) with
      | (tr, Ok c1) =>
          let '(tr', o) := loop_count k (i + 1) fuel c1 in (tr ++ tr', o)
      | (tr, o) => (tr, o)
      end
  end.

Fixpoint loop_forever (budget : nat) (i : Z) (fuel : nat) (c : context)
    : result :=
  match budget with
  | O => ([], OutOfFuel)
  | S k =>
      match waterfall steps fuel (bind_loop (VNum i) c) with
      | (tr, Ok c1) =>
          match consult c1 with
          | (tr1, c2, Some true) =>
              let '(tr2, o) := loop_forever k (i + 1) fuel c2 in
              (tr ++ tr1 ++ tr2, o)
          | (tr1, c2, Some false) => (tr ++ tr1, Ok c2)
          | (tr1, _, None) => (tr ++ tr1, Pending)
          end
      | (tr, o) => (tr, o)
      end
  end.

Definition createLoopWithCount (count : Z) : task :=
  fun fuel c =>
    match overValues opts with
    | VArr (x :: rest) => loop_over (x :: rest) fuel c
    | _ =>
        if Z.leb 0 count then loop_count (Z.to_nat count) 0 fuel c
        else loop_forever fuel 0 fuel c
    end.
End Loop.

(** Modelled from the spec: the helper [createThink] is not under src/;
    a think step suspends the pipeline for its duration and resumes. *)
Definition createThink (duration : value) : task :=
  fun _ c => ([Think duration], Ok c).

(** *** The engine instance

    [self.helpers.template], [JSON.stringify], the processor module
    [self.script.config.processor] ([None] when the script has none) and
    the [auth] block of the configuration.  [chalk] is used by the log
    step but never imported in the file; it is taken as given. *)
Section Instance.
Variable template : value -> context -> value.
Variable JSON_stringify : value -> value.
Variable chalk_blue : value -> value.
Variable processors : option (gmap string processor).
Variable config_auth : value.

(** [rs.count || -1] *)
Definition count_or_default (count : option Z) : Z :=
  match count with
  | Some n => if Z.eqb n 0 then -1 else n
  | None => -1
  end.

(** [processor ? processor[rs.whileTrue] : undefined] *)
Definition resolve_whileTrue (name : value) : option processor :=
  match processors with
  | Some reg => reg !! to_key name
  | None => None
  end.

Definition log (text : value) : task :=
  fun _ c => ([ConsoleLog (chalk_blue (template text c))], Ok c).

Definition function_step (name : value) : task :=
  fun _ c =>
    match processors with
    | None => ([], Throw (type_error "Cannot read properties of undefined"))
    | Some reg =>
        match reg !! to_key name with
        | None => ([], Ok c)
        | Some func =>
            let '(sent, c', called) := as_step func c in
            (ProcessorCall (to_key name) c :: emits sent,
             if called then Ok c' else Pending)
        end
    end.

(** The inner [publish(context, callback)] of a publish step. *)
Definition publish (topic payload options : value) (c : context) : result :=
  match mqtt c with
  | None => ([], Throw (type_error "Cannot read properties of undefined"))
  | Some cl =>
      let wire := if is_string payload then payload
                  else JSON_stringify payload in
      let call := MqttPublish topic wire options in
      match cl_publish cl topic wire options with
      | None => ([call], Pending)
      | Some error =>
          if truthy error then
            ([call;
              Emit "error" [js_or (get_prop error "message")
                                  (get_prop error "code")]],
             Fail error None)
          else
            ([call;
              Emit "counter" [VStr "mqtt.publish_count"; VNum 1];
              Emit "rate" [VStr "mqtt.publish_rate"]],
             Ok c)
      end
  end.

(** What the hook chain threads: the context and the two rendered
    values, which the hooks share by reference. *)
Record hook_state : Type := HookState {
  hs_context : context;
  hs_topic : value;
  hs_payload : value
}.

Definition iteratee (functionName : value) (st : hook_state)
    : list event * series_result hook_state :=
  let c := hs_context st in
  let fn := template functionName c in
  match processors with
  | None =>
      ([], SeriesThrow (type_error "Cannot read properties of undefined"))
  | Some reg =>
      match reg !! to_key fn with
      | None =>
          (* [processFunc] is a [const]: the fallback assignment throws
             before the warning is printed *)
          ([], SeriesThrow (type_error "Assignment to constant variable."))
      | Some processFunc =>
          let r := as_hook processFunc (hs_topic st) (hs_payload st) c in
          let st' := {| hs_context := hr_context r;
                        hs_topic := after_mutation (hs_topic st) (hr_topic r);
                        hs_payload :=
                          after_mutation (hs_payload st) (hr_payload r) |} in
          let called :=
            HookCall (to_key fn) (hs_topic st) (hs_payload st) c
            :: emits (hr_emitted r) in
          match hr_reply r with
          | None => (called, SeriesPending)
          | Some err =>
              (called ++ [HookReturn (to_key fn) err],
               SeriesDone (if truthy err then err else VNull) st')
          end
      end
  end.

Definition publish_step (opts_beforeRequest : value) (p : publish_spec)
    : task :=
  fun _ c =>
    let topic := template (p_topic p) c in
    let payload := template (p_payload p) c in
    let functionNames :=
      lodash_concat (js_or opts_beforeRequest (VArr []))
                    (js_or (p_beforeRequest p) (VArr [])) in
    match eachSeries functionNames iteratee
            {| hs_context := c; hs_topic := topic; hs_payload := payload |}
    with
    | (tr, SeriesDone err st) =>
        if truthy err then (tr, Fail err (Some (hs_context st)))
        else
          let '(tr', o) :=
            publish (hs_topic st) (hs_payload st) (p_options p)
                    (hs_context st) in
          (tr ++ tr', o)
    | (tr, SeriesPending) => (tr, Pending)
    | (tr, SeriesThrow e) => (tr, Throw e)
    end.

Definition doNothing : task := fun _ c => ([], Ok c).

(** [step(rs, ee, opts)]: the first present field decides the kind. *)
Fixpoint step (opts_beforeRequest : value) (rs : request_spec) : task :=
  match rs with
  | RequestSpec rs_loop rs_count rs_loopValue rs_over rs_whileTrue
                rs_log rs_think rs_function rs_publish =>
      match rs_loop with
      | Some inner =>
          createLoopWithCount
            (map (step opts_beforeRequest) inner)
            {| loopValue := js_or rs_loopValue (VStr "$loopCount");
               overValues := rs_over;
               whileTrue := resolve_whileTrue rs_whileTrue |}
            (count_or_default rs_count)
      | None =>
          if truthy rs_log then log rs_log
          else if truthy rs_think then createThink rs_think
          else if truthy rs_function then function_step rs_function
          else match rs_publish with
               | Some p => publish_step opts_beforeRequest p
               | None => doNothing
               end
      end
  end.

(** *** The VU function

    The transport client is an event emitter.  [vuInit] registers four
    listeners, in this order: [once("connect")], [once("error")],
    [on("error")], [on("reconnect")].  Emitting an event runs the
    listeners of that event in registration order; a [once] listener is
    removed when it runs. *)
Inductive transport_event : Type :=
| TConnect
| TError (e : value)
| TReconnect.

Inductive listener : Type :=
| OnceConnect
| OnceError
| OnError
| OnReconnect.

Definition registered : list listener :=
  [OnceConnect; OnceError; OnError; OnReconnect].

Definition listens (l : listener) (ev : transport_event) : bool :=
  match l, ev with
  | OnceConnect, TConnect => true
  | OnceError, TError _ => true
  | OnError, TError _ => true
  | OnReconnect, TReconnect => true
  | _, _ => false
  end.

Definition once (l : listener) : bool :=
  match l with
  | OnceConnect | OnceError => true
  | OnError | OnReconnect => false
  end.

(** The body of each listener; [c] is [initialContext]. *)
Definition run_listener (cl : client) (l : listener) (ev : transport_event)
    (c : context) : list event * context :=
  match l, ev with
  | OnceConnect, _ =>
      let c' := set_mqtt cl c in
      ([Emit "counter" [VStr "mqtt.connect"; VNum 1];
        InitCallback VNull (Some c')], c')
  | OnceError, TError error => ([InitCallback error None], c)
  | OnError, TError error =>
      ([Emit "error" [js_or (get_prop error "message")
                            (get_prop error "code")]], c)
  | OnReconnect, _ =>
      ([Emit "counter"
          [VStr (String.append "mqtt.reconnect." (to_key (clientId cl)));
           VNum 1]], c)
  | _, _ => ([], c)
  end.

Fixpoint emit_to (cl : client) (ls : list listener) (ev : transport_event)
    (c : context) : list event * list listener * context :=
  match ls with
  | [] => ([], [], c)
  | l :: rest =>
      if listens l ev then
        let '(tr, c1) := run_listener cl l ev c in
        let '(tr', keep, c2) := emit_to cl rest ev c1 in
        (tr ++ tr', if once l then keep else l :: keep, c2)
      else
        let '(tr', keep, c2) := emit_to cl rest ev c in
        (tr', l :: keep, c2)
  end.

(** The transport events of a VU, delivered one after the other. *)
Fixpoint deliver (cl : client) (ls : list listener)
    (evs : list transport_event) (c : context) : list event * context :=
  match evs with
  | [] => ([], c)
  | ev :: rest =>
      let '(tr, ls', c1) := emit_to cl ls ev c in
      let '(tr', c2) := deliver cl ls' rest c1 in
      (tr ++ tr', c2)
  end.

(** The first invocation of [vuInit]'s continuation decides how the
    waterfall goes on. *)
Fixpoint first_init (tr : list event) : outcome :=
  match tr with
  | [] => Pending
  | InitCallback err c :: rest =>
      if truthy err then Fail err c
      else match c with Some c' => Ok c' | None => Pending end
  | _ :: rest => first_init rest
  end.

(** [vuInit]: templating the auth block, reading [parsedAuth.clientId]
    (which throws when the block is absent), connecting and listening.
    [evs] are the transport events delivered while [vuInit] is the
    step in progress. *)
Definition vuInit (cl : client) (evs : list transport_event) (c : context)
    : result :=
  match template config_auth c with
  | VUndefined | VNull =>
      ([], Throw (type_error "Cannot read properties of undefined"))
  | _ =>
      let '(tr, _) := deliver cl registered evs c in
      (tr, first_init tr)
  end.

(** The [done] callback of the scenario waterfall. *)
Definition done (o : outcome) : list event :=
  match o with
  | Fail error c => [FinalCallback error c]
  | Ok c =>
      match mqtt c with
      | Some cl =>
          MqttEnd ::
          match cl_end cl with
          | None => []
          | Some error =>
              [Emit "counter"
                 [VStr (if truthy error then "mqtt.error.close"
                        else "mqtt.close"); VNum 1];
               FinalCallback error (Some c)]
          end
      | None => [FinalCallback VNull (Some c)]
      end
  | Pending | Throw _ | OutOfFuel => []
  end.

Record scenario_spec : Type := ScenarioSpec {
  beforeScenario : list value;
  afterScenario : list value;
  beforeRequest : list value;
  flow : list request_spec
}.

Definition function_spec (name : value) : request_spec :=
  RequestSpec None None VUndefined VUndefined VUndefined
              VUndefined VUndefined name None.

Definition compile_flow (sp : scenario_spec) : list task :=
  map (step (VArr (beforeRequest sp)))
      (map function_spec (beforeScenario sp)
       ++ flow sp ++ map function_spec (afterScenario sp)).

(** [scenario(initialContext, callback)]: the trace of one VU whose
    transport connects (or fails) as [evs] says. *)
Definition scenario (sp : scenario_spec) (cl : client)
    (evs : list transport_event) (fuel : nat) (initialContext : context)
    : list event :=
  let '(tr0, o0) := vuInit cl evs initialContext in
  let '(tr1, o1) :=
    match o0 with
    | Ok c => waterfall (compile_flow sp) fuel c
    | _ => ([], o0)
    end in
  Emit "started" [] :: tr0 ++ tr1 ++ done o1.
End Instance.

End Engine.

(* ===================================================================== *)
(** ** The request/acknowledge engine ([function MqttEngine]) *)
(* ===================================================================== *)

Module Legacy.

Inductive socket : Type := Socket.

(** The VU context as this engine uses it. *)
Record context : Type := Context {
  vars : gmap string value;
  ws : option socket;
  client : bool;
  _successCount : Z;
  _uid : value
}.

Record acknowledge_spec : Type := AcknowledgeSpec {
  a_data : value;
  a_capture : value;
  a_match : value
}.

Record request_spec : Type := RequestSpecL {
  rpc : value;
  params : list value;
  acknowledge : option acknowledge_spec
}.

(** The closure [ackCallback]: the request it validates against and the
    step continuation it ends in, named by the request id. *)
Record ack_closure : Type := AckClosure {
  ac_spec : request_spec;
  ac_step : string
}.

(** An entry of [responseHandlers]. *)
Record handler_data : Type := HandlerData {
  callback : ack_closure;
  executed : bool;
  hd_rpc : value
}.

Inductive event : Type :=
| Emit (name : string) (args : list value)
| ConsoleError (text : string) (error : value)
| WsSend (payload : value)
| SetTimeout (id : string) (delay : value)
| StepCallback (id : string) (err : value)
| ClientEnd
| InitCallback (err : value)
| FinalCallback (err : value).

(** The engine with one running VU: the pending map, [self.timeout]
    (never assigned by the constructor, hence a value that may be
    [undefined]), the counter behind [_.uniqueId()] and the VU context,
    which every closure of the VU shares. *)
Record state : Type := State {
  responseHandlers : gmap string handler_data;
  timeout : value;
  idCounter : Z;
  ctx : context
}.

Inductive completion : Type :=
| Normal
| Thrown (e : value).

Definition set_handlers (h : gmap string handler_data) (st : state) : state :=
  {| responseHandlers := h; timeout := timeout st;
     idCounter := idCounter st; ctx := ctx st |}.

Definition set_ctx (c : context) (st : state) : state :=
  {| responseHandlers := responseHandlers st; timeout := timeout st;
     idCounter := idCounter st; ctx := c |}.

Definition reference_error (name : string) : value :=
  VError (String.append "ReferenceError: "
            (String.append name " is not defined")).

Definition type_error (msg : string) : value :=
  VError (String.append "TypeError: " msg).

(** [spec.rpc && spec.acknowledge] *)
Definition isAcknowledgeRequired (spec : request_spec) : bool :=
  truthy (rpc spec) &&
  match acknowledge spec with Some _ => true | None => false end.

(** One result of [captureOrMatch] for a match expression. *)
Record match_result : Type := MatchResult {
  success : value;
  expected : value;
  got : value;
  expression : value
}.

Record capture_result : Type := CaptureResult {
  matches : list (string * match_result);
  captures : list (string * value)
}.

(** The validation spec handed to [processResponse]. *)
Record response_spec : Type := ResponseSpec {
  r_data : value;
  r_capture : value;
  r_match : value
}.

(** How [processResponse] leaves: the argument of its callback, or
    nothing when [captureOrMatch] never comes back. *)
Inductive settled : Type :=
| Settled (err : value)
| Unsettled.

Definition dquote : string :=
  String (Ascii.Ascii false true false false false true false false)
         EmptyString.

(** [v[1]] for a [v] that is neither [null] nor [undefined]. *)
Definition index1 (v : value) : value :=
  match v with
  | VArr items => nth 1 items VUndefined
  | VObj fs => assoc "1" fs
  | VStr s => match String.get 1 s with
              | Some a => VStr (String a EmptyString)
              | None => VUndefined
              end
  | _ => VUndefined
  end.

Definition is_nullish (v : value) : bool :=
  match v with VUndefined | VNull => true | _ => false end.

(** The identifiers a function body can resolve: its parameters, innermost
    first. *)
Fixpoint resolve (name : string) (scope : list (string * string))
    : option string :=
  match scope with
  | [] => None
  | (n, v) :: rest => if String.eqb name n then Some v else resolve name rest
  end.

(** [ee.emit('response', delta, 0, context._uid)]; the latency [delta] is
    a clock reading and is left out. *)
Definition markEndTime (c : context) : event :=
  Emit "response" [VNum 0; _uid c].

(** The collaborators: [engineUtil.template], [JSON.stringify],
    [JSON.parse] ([None]: a SyntaxError), [engineUtil.captureOrMatch]
    ([None]: its callback never runs).  [deepEqual] is called by
    [processResponse] but never imported in the file; it is taken as
    given. *)
Section Instance.
Variable template : value -> context -> value.
Variable JSON_stringify : value -> value.
Variable JSON_parse : string -> option value.
Variable deepEqual : value -> value -> bool.
Variable captureOrMatch :
  response_spec -> value -> context -> option (value * capture_result).

Definition match_event (kv : string * match_result) : event :=
  let v := kv.2 in
  Emit "match" [success v;
                VObj [("expected", expected v); ("got", got v);
                      ("expression", expression v)]].

Definition store_captures (caps : list (string * value))
    (m : gmap string value) : gmap string value :=
  fold_left (fun acc kv => <[kv.1 := kv.2]> acc) caps m.

Definition processResponse (data : value) (response : response_spec)
    (c : context) : list event * context * settled :=
  if truthy (r_data response) && negb (deepEqual data (r_data response))
  then
    ([Emit "error" [VStr "data is not valid"]], c,
     Settled (VStr "data is not valid"))
  else if negb (truthy (r_capture response))
          && negb (truthy (r_match response))
  then ([], c, Settled VNull)
  else
    let body := JSON_stringify data in
    match captureOrMatch response body c with
    | None => ([], c, Unsettled)
    | Some (err, result) =>
        if truthy err then ([Emit "error" [err]], c, Settled err)
        else
          let failedMatches :=
            List.filter (fun kv => negb (truthy (success kv.2)))
                        (matches result) in
          if Nat.ltb 0 (length failedMatches) then
            ([Emit "error" [VStr "Failed match"]], c,
             Settled (VError "Failed match"))
          else
            (map match_event (matches result),
             {| vars := <["$" := body]>
                          (store_captures (captures result) (vars c));
                ws := ws c;
                client := client c;
                _successCount := _successCount c + 1;
                _uid := _uid c |},
             Settled VNull)
    end.

(** [r.json = '$.0'] for a plain object without a [json] field. *)
Definition default_json (r : value) : value :=
  match r with
  | VObj fs =>
      if existsb (fun kv => String.eqb kv.1 "json") fs then r
      else VObj (fs ++ [("json", VStr "$.0")])
  | _ => r
  end.

(** [ackCallback], called with one argument; [arguments] is the
    array-like object holding it. *)
Definition ackCallback (cl : ack_closure) (arg : value) (st : state)
    : list event * state * completion :=
  match acknowledge (ac_spec cl) with
  | None =>
      ([], st, Thrown (type_error "Cannot read properties of undefined"))
  | Some a =>
      let c := ctx st in
      let response :=
        {| r_data := default_json (template (a_data a) c);
           r_capture := default_json (template (a_capture a) c);
           r_match := default_json (template (a_match a) c) |} in
      match processResponse (VObj [("0", arg)]) response c with
      | (tr, c', Settled err) =>
          (tr ++ (if truthy err then [] else [markEndTime c'])
              ++ [StepCallback (ac_step cl) err],
           set_ctx c' st, Normal)
      | (tr, c', Unsettled) => (tr, set_ctx c' st, Normal)
      end
  end.

(** The [try] block of [__handleResponse], given what the identifier
    [msg] evaluates to ([None]: it is not bound). *)
Definition handleResponse_try (msg : option string) (st : state)
    : list event * state * completion :=
  match msg with
  | None => ([], st, Thrown (reference_error "msg"))
  | Some m =>
      match String.index 0 "|" m with
      | None => ([], st, Normal)
      | Some i =>
          let responderId := String.substring 0 i m in
          let content :=
            String.substring (i + 1) (String.length m - (i + 1)) m in
          if String.eqb responderId "41" then
            match JSON_parse content with
            | None => ([], st, Thrown (VError "SyntaxError"))
            | Some json =>
                if is_nullish json then
                  ([], st,
                   Thrown (type_error "Cannot read properties of null"))
                else
                  let id := to_key (get_prop json "id") in
                  match responseHandlers st !! id with
                  | None => ([], st, Normal)
                  | Some data =>
                      let st1 :=
                        set_handlers
                          (<[id := {| callback := callback data;
                                      executed := true;
                                      hd_rpc := hd_rpc data |}]>
                             (responseHandlers st)) st in
                      let p := get_prop json "p" in
                      if is_nullish p then
                        ([], st1,
                         Thrown (type_error
                                   "Cannot read properties of undefined"))
                      else ackCallback (callback data) (index1 p) st1
                  end
            end
          else ([], st, Normal)
      end
  end.

(** The [try ... catch] of [__handleResponse]: whatever the [try] block
    throws is caught and printed. *)
Definition handleResponse_catch (msg : option string) (st : state)
    : list event * state :=
  match handleResponse_try msg st with
  | (tr, st', Normal) => (tr, st')
  | (tr, st', Thrown error) =>
      (tr ++ [ConsoleError "ERROR parsing web socket message" error], st')
  end.

(** [__handleResponse(topic, message, packet)]: the body reads [msg],
    which is none of its parameters. *)
Definition __handleResponse (topic message packet : string) (st : state)
    : list event * state :=
  handleResponse_catch
    (resolve "msg"
       [("topic", topic); ("message", message); ("packet", packet)])
    st.

(** The callback of the timer armed for request [uniqueId].  The
    message is built from [data.rpc] before [data] is tested. *)
Definition timer_fire (uniqueId : string) (st : state)
    : list event * state * completion :=
  match responseHandlers st !! uniqueId with
  | None =>
      ([], st, Thrown (type_error "Cannot read properties of undefined"))
  | Some data =>
      let err := String.append "response timeout for "
                               (to_key (hd_rpc data)) in
      let st' := set_handlers (delete uniqueId (responseHandlers st)) st in
      if negb (executed data) then
        ([Emit "error" [VStr err]; StepCallback uniqueId (VError err)],
         st', Normal)
      else ([], st', Normal)
  end.

(** The wire frame of a request. *)
Definition frame (uniqueId : string) (requestSpec : request_spec)
    (c : context) : value :=
  let q := dquote in
  let rendered := map (fun v => template v c) (params requestSpec) in
  template
    (VStr (String.concat ""
             ["41|{"; q; "id"; q; ":"; uniqueId; ",";
              q; "m"; q; ":"; q; to_key (rpc requestSpec); q; ",";
              q; "p"; q; ":"; to_key (JSON_stringify (VArr rendered));
              "}"]))
    c.

(** The step [f(context, callback)] of a request; its continuation is
    named by the request id. *)
Definition request_step (requestSpec : request_spec) (st : state)
    : list event * state * completion :=
  let c := ctx st in
  let n := idCounter st + 1 in
  let uniqueId := pretty n in
  let st0 := {| responseHandlers := responseHandlers st;
                timeout := timeout st; idCounter := n; ctx := c |} in
  let payload := frame uniqueId requestSpec c in
  if isAcknowledgeRequired requestSpec then
    let st1 :=
      set_handlers
        (<[uniqueId := {| callback := {| ac_spec := requestSpec;
                                         ac_step := uniqueId |};
                          executed := false;
                          hd_rpc := rpc requestSpec |}]>
           (responseHandlers st0)) st0 in
    let armed := [Emit "request" []; SetTimeout uniqueId (timeout st)] in
    match ws c with
    | None =>
        (armed, st1, Thrown (type_error "Cannot read properties of null"))
    | Some _ => (armed ++ [WsSend payload], st1, Normal)
    end
  else
    match ws c with
    | None =>
        ([Emit "request" []], st0,
         Thrown (type_error "Cannot read properties of null"))
    | Some _ =>
        ([Emit "request" []; WsSend payload; markEndTime c;
          StepCallback uniqueId VNull], st0, Normal)
    end.

(** [requestSpec.count || -1] and [requestSpec.loopValue || '$loopCount']
    of the loop branch. *)
Definition loop_count_argument (count : option Z) : Z :=
  match count with
  | Some n => if Z.eqb n 0 then -1 else n
  | None => -1
  end.

Definition loop_value_argument (loopValue : value) : value :=
  js_or loopValue (VStr "$loopCount").

(** The transport listeners of [createMqttClient], in registration
    order: [on('connect')], [on('message')], [once('error')]. *)
Inductive transport_event : Type :=
| TConnect
| TMessage (topic message packet : string)
| TError (e : value).

Inductive listener : Type :=
| OnConnect
| OnMessage
| OnceError.

Definition registered : list listener := [OnConnect; OnMessage; OnceError].

Definition listens (l : listener) (ev : transport_event) : bool :=
  match l, ev with
  | OnConnect, TConnect => true
  | OnMessage, TMessage _ _ _ => true
  | OnceError, TError _ => true
  | _, _ => false
  end.

Definition once (l : listener) : bool :=
  match l with OnceError => true | _ => false end.

Definition run_listener (l : listener) (ev : transport_event) (st : state)
    : list event * state :=
  match l, ev with
  | OnConnect, _ =>
      let c := ctx st in
      ([InitCallback VNull],
       set_ctx {| vars := vars c; ws := ws c; client := true;
                  _successCount := _successCount c; _uid := _uid c |} st)
  | OnMessage, TMessage topic message packet =>
      __handleResponse topic message packet st
  | OnceError, TError err =>
      ([Emit "error" [js_or (get_prop err "message") (get_prop err "code")];
        InitCallback err], st)
  | _, _ => ([], st)
  end.

Fixpoint emit_to (ls : list listener) (ev : transport_event) (st : state)
    : list event * list listener * state :=
  match ls with
  | [] => ([], [], st)
  | l :: rest =>
      if listens l ev then
        let '(tr, st1) := run_listener l ev st in
        let '(tr', keep, st2) := emit_to rest ev st1 in
        (tr ++ tr', if once l then keep else l :: keep, st2)
      else
        let '(tr', keep, st2) := emit_to rest ev st in
        (tr', l :: keep, st2)
  end.

Fixpoint deliver (ls : list listener) (evs : list transport_event)
    (st : state) : list event * state :=
  match evs with
  | [] => ([], st)
  | ev :: rest =>
      let '(tr, ls', st1) := emit_to ls ev st in
      let '(tr', st2) := deliver ls' rest st1 in
      (tr ++ tr', st2)
  end.

(** [scenarioWaterfallCb(err, context)]: the handle is closed whether
    or not the pipeline failed. *)
Definition scenarioWaterfallCb (err : value) (c : option context)
    : list event :=
  match c with
  | Some c' => if client c' then [ClientEnd; FinalCallback err]
               else [FinalCallback err]
  | None => [FinalCallback err]
  end.
End Instance.

End Legacy.

(* ===================================================================== *)
(** ** Observations on traces *)
(* ===================================================================== *)

Module EngineSpec.
Import Engine.

Definition is_publish (e : event) : bool :=
  match e with MqttPublish _ _ _ => true | _ => false end.

Definition is_end (e : event) : bool :=
  match e with MqttEnd => true | _ => false end.

Definition is_final (e : event) : bool :=
  match e with FinalCallback _ _ => true | _ => false end.

Definition is_init (e : event) : bool :=
  match e with InitCallback _ _ => true | _ => false end.


(** Anything a user could read as a warning: a console line or an event
    on the sink. *)
Definition is_report (e : event) : bool :=
  match e with ConsoleLog _ | Emit _ _ => true | _ => false end.

Definition count (p : event -> bool) (tr : list event) : nat :=
  length (List.filter p tr).

(** The claim about a step that names a missing processor, as stated: the
    continuation is invoked once with the context unchanged, and a
    warning is surfaced. *)
Definition recovers_with_warning (t : task) (fuel : nat) (c : context)
    : Prop :=
  exists tr, t fuel c = (tr, Ok c) /\ existsb is_report tr = true.

(** The control skeleton of a publish step's trace. *)
Inductive token : Type :=
| TCall (fn : string)
| TReturn (fn : string) (failed : bool)
| TPublish.

Fixpoint skeleton (tr : list event) : list token :=
  match tr with
  | [] => []
  | HookCall fn _ _ _ :: rest => TCall fn :: skeleton rest
  | HookReturn fn err :: rest => TReturn fn (truthy err) :: skeleton rest
  | MqttPublish _ _ _ :: rest => TPublish :: skeleton rest
  | _ :: rest => skeleton rest
  end.



Definition has_publish (sk : list token) : bool :=
  existsb (fun t => match t with TPublish => true | _ => false end) sk.

(** What the transport receives for a rendered payload. *)
Definition wire (JSON_stringify : value -> value) (payload : value) : value :=
  if is_string payload then payload else JSON_stringify payload.

(** The skeleton of hooks that all ran and succeeded. *)
Definition pairs (fns : list string) : list token :=
  flat_map (fun fn => [TCall fn; TReturn fn false]) fns.


(** A templating function for examples: a string that names a variable
    renders to the variable's value, anything else to itself. *)
Definition render_var (v : value) (c : context) : value :=
  match v with
  | VStr k => default v (vars c !! k)
  | _ => v
  end.

Definition no_render (v : value) (c : context) : value := v.

Definition fresh_context : context := {| vars := ∅; mqtt := None |}.

(** A transport whose publish reports [err] and whose close succeeds. *)
Definition client_replying (err : value) : client :=
  {| clientId := VStr "vu-1";
     cl_publish := fun _ _ _ => Some err;
     cl_end := Some VNull |}.

Definition publish_hello : request_spec :=
  RequestSpec None None VUndefined VUndefined VUndefined VUndefined
    VUndefined VUndefined
    (Some {| p_topic := VStr "sensor/data"; p_payload := VStr "hello";
             p_options := VUndefined; p_beforeRequest := VUndefined |}).

Definition log_loop_count : request_spec :=
  RequestSpec None None VUndefined VUndefined VUndefined
    (VStr "$loopCount") VUndefined VUndefined None.

Definition loop_of (count : option Z) (inner : list request_spec)
    : request_spec :=
  RequestSpec (Some inner) count VUndefined VUndefined VUndefined
    VUndefined VUndefined VUndefined None.

(** A processor that answers its continuation with [reply] and touches
    nothing. *)
Definition hook_answering (reply : value) : processor :=
  {| as_step := fun c => ([], c, true);
     as_hook := fun t pl c =>
       {| hr_emitted := []; hr_context := c; hr_topic := t;
          hr_payload := pl; hr_reply := Some reply |};
     as_pred := fun c => ([], c, Some (VBool true)) |}.

Definition two_hooks : gmap string processor :=
  <["h1" := hook_answering (VStr "denied")]>
    (<["h2" := hook_answering VNull]> ∅).

Definition publish_with_hooks : publish_spec :=
  {| p_topic := VStr "sensor/data"; p_payload := VStr "hello";
     p_options := VUndefined;
     p_beforeRequest := VArr [VStr "h1"; VStr "h2"] |}.

Definition one_publish : scenario_spec :=
  {| beforeScenario := []; afterScenario := []; beforeRequest := [];
     flow := [publish_hello] |}.

(** The console lines of [k] runs of a step that logs the loop variable,
    starting at index [i]. *)
Fixpoint logged (chalk_blue : value -> value) (k : nat) (i : Z)
    : list event :=
  match k with
  | O => []
  | S k' => ConsoleLog (chalk_blue (VNum i)) :: logged chalk_blue k' (i + 1)
  end.

Definition count_opts : loop_opts :=
  {| loopValue := VStr "$loopCount"; overValues := VUndefined;
     whileTrue := None |}.

Definition log_loop_task (S chalk_blue : value -> value) : task :=
  step render_var S chalk_blue None VUndefined log_loop_count.

End EngineSpec.

(* ===================================================================== *)
(** ** Observations on the request/acknowledge engine *)
(* ===================================================================== *)

Module LegacySpec.
Import Legacy.

Definition is_step_callback (e : event) : bool :=
  match e with StepCallback _ _ => true | _ => false end.

Definition is_sink_error (e : event) : bool :=
  match e with
  | Emit name _ => String.eqb name "error"
  | _ => false
  end.

Definition is_console_error (e : event) : bool :=
  match e with ConsoleError _ _ => true | _ => false end.

Definition count (p : event -> bool) (tr : list event) : nat :=
  length (List.filter p tr).

(** The claim about a dropped message, as stated: the drop is reported
    to the event sink as an error. *)
Definition reported_to_sink (tr : list event) : Prop :=
  existsb is_sink_error tr = true.



Definition timeout_message (method : value) : string :=
  String.append "response timeout for " (to_key method).

(** Collaborators for examples. *)
Definition no_render (v : value) (c : context) : value := v.

Definition parse_table (known : list (string * value)) (s : string)
    : option value :=
  match List.find (fun kv => String.eqb s kv.1) known with
  | Some kv => Some kv.2
  | None => None
  end.

Definition tag_equal (a b : value) : bool :=
  match a, b with
  | VUndefined, VUndefined | VNull, VNull => true
  | VBool x, VBool y => Bool.eqb x y
  | VNum x, VNum y => Z.eqb x y
  | VStr x, VStr y => String.eqb x y
  | _, _ => false
  end.

Definition no_capture (r : response_spec) (body : value) (c : context)
    : option (value * capture_result) :=
  Some (VNull, {| matches := []; captures := [] |}).

(** [41|{"id":1,"p":[null,[{"ok":true}]]}] *)
Definition reply_text : string :=
  String.concat ""
    ["{"; dquote; "id"; dquote; ":1,"; dquote; "p"; dquote; ":[null,[{";
     dquote; "ok"; dquote; ":true}]]}"].

Definition reply_frame : string := String.append "41|" reply_text.

Definition reply_json : value :=
  VObj [("id", VNum 1);
        ("p", VArr [VNull; VArr [VObj [("ok", VBool true)]]])].

Definition parse_reply : string -> option value :=
  parse_table [(reply_text, reply_json)].

Definition ping : request_spec :=
  {| rpc := VStr "ping"; params := [];
     acknowledge := Some {| a_data := VUndefined; a_capture := VUndefined;
                            a_match := VUndefined |} |}.

Definition connected : context :=
  {| vars := ∅; ws := Some Socket; client := true; _successCount := 0;
     _uid := VStr "vu-1" |}.

Definition idle : state :=
  {| responseHandlers := ∅; timeout := VUndefined; idCounter := 0;
     ctx := connected |}.

End LegacySpec.

(* ===================================================================== *)
(** ** Engine construction and the path helper *)
(* ===================================================================== *)

Module Setup.

(** The head of [s] up to the first closing brace, and what follows the
    brace; [None] when [s] has no closing brace. *)
Fixpoint split_name (s : string) : option (string * string) :=
  match s with
  | EmptyString => None
  | String a rest =>
      if Ascii.eqb a "}"%char then Some (EmptyString, rest)
      else match split_name rest with
           | Some (name, after) => Some (String a name, after)
           | None => None
           end
  end.

(** A match of [/\$\{(?=[^\}]+\})([^\}]+)\}/] at the head of [s]: a
    dollar, an opening brace, a non-empty run without closing brace, and
    a closing brace.  The result is the captured run and the text after
    the match. *)
Definition placeholder (s : string) : option (string * string) :=
  match s with
  | String a (String b rest) =>
      if Ascii.eqb a "$"%char && Ascii.eqb b "{"%char then
        match split_name rest with
        | Some (String n name, after) => Some (String n name, after)
        | _ => None
        end
      else None
  | _ => None
  end.

(** [value.replace(/.../g, `{{ $1 }}`)]: matches are replaced from left to
    right and the scan resumes after each match; [fuel] bounds the
    number of steps, one per character at most. *)
Fixpoint replace_go (fuel : nat) (s : string) : string :=
  match fuel with
  | O => s
  | S fuel' =>
      match placeholder s with
      | Some (name, after) =>
          String.append "{{ "
            (String.append name (String.append " }}" (replace_go fuel' after)))
      | None =>
          match s with
          | EmptyString => EmptyString
          | String a rest => String a (replace_go fuel' rest)
          end
      end
  end.

Definition replace_placeholders (s : string) : string :=
  replace_go (String.length s) s.

(** One pass of the constructor's loop body:
    [auth[key] = (auth[key] ?? "").replace(...)].  A value without a
    [replace] method throws. *)
Definition convert_value (v : value) : value + value :=
  match v with
  | VUndefined | VNull => inl (VStr (replace_placeholders ""))
  | VStr s => inl (VStr (replace_placeholders s))
  | _ => inr (Engine.type_error "value.replace is not a function")
  end.

(** The loop over the fields of an object, in order; it stops at the
    first throw and leaves the later fields as they were. *)
Fixpoint convert_fields (fs : list (string * value))
    : list (string * value) * option value :=
  match fs with
  | [] => ([], None)
  | (k, v) :: rest =>
      match convert_value v with
      | inl v' =>
          let '(rest', e) := convert_fields rest in ((k, v') :: rest', e)
      | inr e => ((k, v) :: rest, Some e)
      end
  end.

Fixpoint convert_items (items : list value) : list value * option value :=
  match items with
  | [] => ([], None)
  | v :: rest =>
      match convert_value v with
      | inl v' => let '(rest', e) := convert_items rest in (v' :: rest', e)
      | inr e => (v :: rest, Some e)
      end
  end.

(** The constructor's treatment of [this.config.auth]: the block as the
    constructor leaves it, and the exception it throws, if any.  A
    string has its indices as keys and cannot be assigned to. *)
Definition convert_auth (auth : value) : value * option value :=
  if truthy auth then
    match auth with
    | VObj fs => let '(fs', e) := convert_fields fs in (VObj fs', e)
    | VArr items => let '(items', e) := convert_items items in (VArr items', e)
    | VStr _ =>
        (auth, Some (Engine.type_error "Cannot assign to read only property"))
    | _ => (auth, None)
    end
  else (auth, None).

(** [path.split(".")] *)
Fixpoint split_dot (s : string) : list string :=
  match s with
  | EmptyString => [EmptyString]
  | String a rest =>
      if Ascii.eqb a "."%char then EmptyString :: split_dot rest
      else match split_dot rest with
           | h :: t => String a h :: t
           | [] => [String a EmptyString]
           end
  end.

(** The index a key denotes in a list of [n] elements. *)
Definition index_of_key (k : string) (n : nat) : option nat :=
  List.find (fun i => String.eqb (pretty (Z.of_nat i)) k) (seq 0 n).

(** [object[key]] for an [object] that is neither [null] nor
    [undefined]: own fields of objects, elements and [length] of arrays
    and strings. *)
Definition member (object : value) (key : string) : value :=
  match object with
  | VObj fs => assoc key fs
  | VArr items =>
      if String.eqb key "length" then VNum (Z.of_nat (length items))
      else match index_of_key key (length items) with
           | Some i => nth i items VUndefined
           | None => VUndefined
           end
  | VStr s =>
      if String.eqb key "length" then VNum (Z.of_nat (String.length s))
      else match index_of_key key (String.length s) with
           | Some i => match String.get i s with
                       | Some a => VStr (String a EmptyString)
                       | None => VUndefined
                       end
           | None => VUndefined
           end
  | VError m => if String.eqb key "message" then VStr m else VUndefined
  | _ => VUndefined
  end.

Inductive returned : Type :=
| Returns (v : value)
| Throws (e : value).

(** The loop of [_get]: it stops on [null] only, so it reads a member of
    [undefined] when a key is missing on the way. *)
Fixpoint get_loop (object : value) (keys : list string) : returned :=
  match keys with
  | [] => Returns object
  | k :: rest =>
      match object with
      | VNull => Returns VUndefined
      | VUndefined =>
          Throws (Engine.type_error "Cannot read properties of undefined")
      | _ => get_loop (member object k) rest
      end
  end.

Definition _get (object : value) (path : string) : returned :=
  get_loop object (split_dot path).

(** Values the constructor can rewrite: strings, and [null] or
    [undefined], which count as the empty string. *)
Definition has_replace (v : value) : bool :=
  match v with
  | VStr _ | VUndefined | VNull => true
  | _ => false
  end.

Definition text_of (v : value) : string :=
  match v with VStr s => s | _ => EmptyString end.

Definition is_nullish (v : value) : bool :=
  match v with VUndefined | VNull => true | _ => false end.

(** A string without the character [a]. *)
Fixpoint lacks (a : ascii) (s : string) : bool :=
  match s with
  | EmptyString => true
  | String b rest => negb (Ascii.eqb b a) && lacks a rest
  end.

End Setup.

(* ===================================================================== *)
(** ** Observations on transport events *)
(* ===================================================================== *)

Module TransportSpec.
Import Engine.

Definition is_connect (ev : transport_event) : bool :=
  match ev with TConnect => true | _ => false end.

Definition is_error (ev : transport_event) : bool :=
  match ev with TError _ => true | _ => false end.

Definition is_reconnect (ev : transport_event) : bool :=
  match ev with TReconnect => true | _ => false end.

Definition is_error_emit (e : event) : bool :=
  match e with Emit name _ => String.eqb name "error" | _ => false end.

Definition is_counter_emit (e : event) : bool :=
  match e with Emit name _ => String.eqb name "counter" | _ => false end.

Definition occurrences (p : transport_event -> bool)
    (evs : list transport_event) : nat :=
  length (List.filter p evs).

Definition once_if (b : bool) : nat := if b then 1%nat else 0%nat.

(** The listeners still registered: the two [once] listeners while they
    are armed, and the two permanent ones. *)
Definition listeners (connect_armed error_armed : bool) : list listener :=
  (if connect_armed then [OnceConnect] else [])
  ++ (if error_armed then [OnceError] else [])
  ++ [OnError; OnReconnect].

(** The names of the hooks called in a trace, in the order of the
    calls. *)
Fixpoint called (tr : list event) : list string :=
  match tr with
  | [] => []
  | HookCall fn _ _ _ :: rest => fn :: called rest
  | _ :: rest => called rest
  end.

(** The part of a scenario that runs before the afterScenario hooks. *)
Definition before_and_flow (sp : scenario_spec) : list request_spec :=
  map function_spec (beforeScenario sp) ++ flow sp.

Definition with_before (names : list value) (sp : scenario_spec)
    : scenario_spec :=
  {| beforeScenario := names; afterScenario := afterScenario sp;
     beforeRequest := beforeRequest sp; flow := flow sp |}.

Definition publish_then_cleanup : scenario_spec :=
  {| beforeScenario := []; afterScenario := [VStr "cleanup"];
     beforeRequest := []; flow := [EngineSpec.publish_hello] |}.

Definition cleanup_registry : gmap string processor :=
  <["cleanup" := EngineSpec.hook_answering VNull]> ∅.

End TransportSpec.

(* ===================================================================== *)
(** ** Further observations on the request/acknowledge engine *)
(* ===================================================================== *)

Module CorrelationSpec.
Import Legacy.

(** An inbound message as the transport delivers it. *)
Definition message_event (m : string * string * string) : transport_event :=
  TMessage m.1.1 m.1.2 m.2.

Definition is_response (e : event) : bool :=
  match e with Emit name _ => String.eqb name "response" | _ => false end.

Definition is_success_callback (e : event) : bool :=
  match e with StepCallback _ err => negb (truthy err) | _ => false end.

Definition is_ws_send (e : event) : bool :=
  match e with WsSend _ => true | _ => false end.

Definition is_thrown (k : completion) : bool :=
  match k with Thrown _ => true | Normal => false end.

Definition once_if (b : bool) : nat := if b then 1%nat else 0%nat.

Definition unconnected : context :=
  {| vars := ∅; ws := None; client := false; _successCount := 0;
     _uid := VStr "vu-1" |}.

Definition fresh_engine : state :=
  {| responseHandlers := ∅; timeout := VUndefined; idCounter := 0;
     ctx := unconnected |}.

End CorrelationSpec.

(* ===================================================================== *)
(** ** Properties of the publish engine *)
(* ===================================================================== *)

Module EngineFacts.
Import Engine EngineSpec.

Section Publish.
Variable template : value -> context -> value.
Variable JSON_stringify : value -> value.
Variable processors : option (gmap string processor).

Lemma publish_trace_shape topic payload options c cl :
  mqtt c = Some cl ->
  exists rest,
    (publish JSON_stringify topic payload options c).1
    = MqttPublish topic (wire JSON_stringify payload) options :: rest
    /\ count is_publish rest = 0%nat.
Proof.
  intros Hc. unfold publish, wire. rewrite Hc.
  destruct (cl_publish cl topic _ options) as [error|]; simpl.
  - destruct (truthy error); simpl; eexists; split; reflexivity.
  - eexists; split; reflexivity.
Qed.

End Publish.

(** A publish step without hooks hands the rendered values to the
    transport: the whole step, not only its inner function. *)
Lemma publish_step_without_hooks template S processors p fuel c cl :
  mqtt c = Some cl ->
  truthy (p_beforeRequest p) = false ->
  exists rest,
    (publish_step template S processors VUndefined p fuel c).1
    = MqttPublish (template (p_topic p) c)
        (wire S (template (p_payload p) c)) (p_options p) :: rest.
Proof.
  intros Hc Hb. unfold publish_step, js_or. rewrite Hb. simpl.
  destruct (publish_trace_shape S (template (p_topic p) c)
              (template (p_payload p) c) (p_options p) c cl Hc)
    as (rest & Htr & _).
  destruct (publish S _ _ _ c) as [tr o]. simpl in *.
  exists rest. exact Htr.
Qed.


(** A function step whose name is not in the processor module goes on
    with the context as it was and reports nothing. *)
Lemma function_step_missing_trace reg name fuel c :
  reg !! to_key name = None ->
  function_step (Some reg) name fuel c = ([], Ok c).
Proof. intros H. unfold function_step. now rewrite H. Qed.

(** C8, as amended.  A Function step that names a processor absent from
    the processor module is a no-op: its continuation is invoked once,
    without error and with the context unchanged, and nothing is written
    to the console or the event sink. *)
Theorem function_step_missing_is_noop
    (reg : gmap string processor) (name : value) (fuel : nat) (c : context) :
  reg !! to_key name = None ->
  function_step (Some reg) name fuel c = ([], Ok c)
  /\ existsb is_report (function_step (Some reg) name fuel c).1 = false.
Proof.
  intros H. rewrite (function_step_missing_trace reg name fuel c H).
  split; reflexivity.
Qed.

Lemma function_step_missing_is_noop_witness :
  function_step (Some ∅) (VStr "setup") 0%nat fresh_context
  = ([], Ok fresh_context).
Proof.
  apply (function_step_missing_is_noop ∅ (VStr "setup") 0%nat fresh_context).
  apply lookup_empty.
Defined.

(** C8 as stated fails on a Function step: no warning is surfaced. *)
Lemma function_step_missing_no_warning :
  ~ recovers_with_warning (function_step (Some ∅) (VStr "setup"))
      0%nat fresh_context.
Proof.
  intros (tr & Hrun & Hwarn).
  rewrite (function_step_missing_trace ∅ (VStr "setup") 0%nat fresh_context)
    in Hrun by apply lookup_empty.
  inversion Hrun; subst. discriminate Hwarn.
Qed.

(** A beforeRequest hook that is absent from the processor module: the
    fallback is assigned to a [const], so the step throws before the
    warning is printed, and neither the publish nor the continuation
    runs. *)
Lemma publish_step_missing_hook_throws template S reg p fuel c name :
  p_beforeRequest p = VArr [name] ->
  reg !! to_key (template name c) = None ->
  publish_step template S (Some reg) VUndefined p fuel c
  = ([], Throw (type_error "Assignment to constant variable.")).
Proof.
  intros Hb Hmiss. unfold publish_step, js_or. rewrite Hb. simpl.
  unfold iteratee. simpl. now rewrite Hmiss.
Qed.

(** *** Teardown *)

Lemma done_failure_does_not_close err c :
  done (Fail err c) = [FinalCallback err c].
Proof. reflexivity. Qed.

(** On success the handle is closed once, before the final callback. *)
Lemma done_success_closes_once c cl err :
  mqtt c = Some cl -> cl_end cl = Some err ->
  exists report,
    done (Ok c) = [MqttEnd; report; FinalCallback err (Some c)]
    /\ is_end report = false.
Proof.
  intros Hc He. unfold done. rewrite Hc, He.
  eexists; split; reflexivity.
Qed.

(** C2, at the failing input.  A VU that connects and whose first pipeline
    step (a publish the transport rejects) fails: the final callback is
    delivered with the error and the stored handle is never closed. *)
Theorem scenario_failure_leaves_handle_open
    (S chalk_blue : value -> value) :
  let cl := client_replying (VError "not connected") in
  let tr := scenario no_render S chalk_blue None (VObj []) one_publish cl
              [TConnect] 0 fresh_context in
  tr = [Emit "started" [];
        Emit "counter" [VStr "mqtt.connect"; VNum 1];
        InitCallback VNull (Some (set_mqtt cl fresh_context));
        MqttPublish (VStr "sensor/data") (VStr "hello") VUndefined;
        Emit "error" [VStr "not connected"];
        FinalCallback (VError "not connected") None]
  /\ count is_end tr = 0%nat
  /\ count is_final tr = 1%nat.
Proof. repeat split. Qed.

(** The same VU with a transport that accepts the publish is closed. *)
Lemma scenario_success_closes_handle (S chalk_blue : value -> value) :
  let cl := client_replying VNull in
  let tr := scenario no_render S chalk_blue None (VObj []) one_publish cl
              [TConnect] 0 fresh_context in
  count is_end tr = 1%nat /\ count is_final tr = 1%nat.
Proof. split; reflexivity. Qed.

(** *** Transport events *)


(** A reconnect only reaches the event sink. *)
Lemma reconnect_only_counts cl ls c :
  count is_init (emit_to cl ls TReconnect c).1.1 = 0%nat.
Proof.
  revert c. induction ls as [|l ls IH]; intros c; [reflexivity|].
  destruct l; simpl;
    specialize (IH c); destruct (emit_to cl ls TReconnect c) as [[tr keep] c'];
    simpl in *; exact IH.
Qed.

(** Once the [once("error")] listener is spent, errors only reach the
    event sink. *)
Lemma second_error_only_reports cl e c :
  (emit_to cl [OnError; OnReconnect] (TError e) c).1.1
  = [Emit "error" [js_or (get_prop e "message") (get_prop e "code")]].
Proof. reflexivity. Qed.

(** *** Loops *)

Section LoopRuns.
Variable S chalk_blue : value -> value.

Local Abbreviation log_task := (log_loop_task S chalk_blue).

Lemma log_task_run fuel i c :
  waterfall [log_task] fuel (bind_loop count_opts (VNum i) c)
  = ([ConsoleLog (chalk_blue (VNum i))],
     Ok (bind_loop count_opts (VNum i) c)).
Proof.
  simpl. unfold log, render_var, bind_loop, set_var. simpl.
  now rewrite lookup_insert_eq.
Qed.


Lemma loop_count_logs k i fuel c :
  exists c',
    loop_count [log_task] count_opts k i fuel c
    = (logged chalk_blue k i, Ok c').
Proof.
  revert i c. induction k as [|k IH]; intros i c; [now exists c|].
  cbn [loop_count]. rewrite log_task_run.
  destruct (IH (i + 1) (bind_loop count_opts (VNum i) c)) as [c' ->].
  now exists c'.
Qed.



Lemma count_zero_is_no_count :
  count_or_default (Some 0) = count_or_default None
  /\ Legacy.loop_count_argument (Some 0) = Legacy.loop_count_argument None.
Proof. split; reflexivity. Qed.

(** With a count [C >= 1] the inner step runs [C] times and the loop
    variable is 0, 1, ..., C-1. *)
Lemma loop_count_positive_runs (C : positive) (fuel : nat) :
  exists c',
    step render_var S chalk_blue None VUndefined
      (loop_of (Some (Z.pos C)) [log_loop_count]) fuel fresh_context
    = (logged chalk_blue (Pos.to_nat C) 0, Ok c').
Proof.
  destruct (loop_count_logs (Pos.to_nat C) 0 fuel fresh_context) as [c' H].
  exists c'. rewrite <- H. reflexivity.
Qed.
End LoopRuns.

(** *** Hooks of a publish step *)

Section Hooks.
Variable template : value -> context -> value.
Variable JSON_stringify : value -> value.
Variable processors : option (gmap string processor).

Lemma skeleton_app tr1 tr2 :
  skeleton (tr1 ++ tr2) = skeleton tr1 ++ skeleton tr2.
Proof.
  induction tr1 as [|e tr1 IH]; [reflexivity|].
  destruct e; simpl; now rewrite ?IH.
Qed.

Lemma skeleton_emits sent : skeleton (emits sent) = [].
Proof. induction sent as [|e sent IH]; [reflexivity|exact IH]. Qed.


Lemma has_publish_pairs fns tail :
  has_publish (pairs fns ++ tail) = has_publish tail.
Proof. induction fns as [|fn fns IH]; [reflexivity|exact IH]. Qed.



Lemma last_snoc_event (tr : list event) (e : event) :
  last (tr ++ [e]) = Some e.
Proof. apply last_snoc. Qed.

(** One hook: called with the current topic, payload and context, then
    answered, unless it is missing or never answers. *)
Lemma iteratee_shape name st :
  match iteratee template processors name st with
  | (tr, SeriesDone err st') =>
      exists fn e,
        skeleton tr = [TCall fn; TReturn fn (truthy e)]
        /\ truthy err = truthy e
        /\ (truthy e = true -> err = e)
        /\ last tr = Some (HookReturn fn e)
  | (tr, SeriesPending) => exists fn, skeleton tr = [TCall fn]
  | (tr, SeriesThrow _) => tr = []
  end.
Proof.
  unfold iteratee. destruct processors as [reg|]; [|reflexivity].
  destruct (reg !! _) as [f|]; [|reflexivity].
  destruct (hr_reply _) as [e|].
  - eexists _, e. repeat split.
    + rewrite skeleton_app. cbn [skeleton]. rewrite skeleton_emits.
      reflexivity.
    + now destruct (truthy e) eqn:He.
    + now intros ->.
    + apply last_snoc_event.
  - eexists. cbn [skeleton]. now rewrite skeleton_emits.
Qed.

Lemma eachSeries_shape names st :
  exists fns,
    (length fns <= length names)%nat /\
    match eachSeries names (iteratee template processors) st with
    | (tr, SeriesDone err st') =>
        if truthy err then
          exists fn, skeleton tr = pairs fns ++ [TCall fn; TReturn fn true]
                     /\ last tr = Some (HookReturn fn err)
        else skeleton tr = pairs fns /\ length fns = length names
    | (tr, SeriesPending) => exists fn, skeleton tr = pairs fns ++ [TCall fn]
    | (tr, SeriesThrow _) => skeleton tr = pairs fns
    end.
Proof.
  revert st. induction names as [|name names IH]; intros st.
  - exists []. split; [reflexivity|]. simpl. split; reflexivity.
  - cbn [eachSeries].
    pose proof (iteratee_shape name st) as Hit.
    destruct (iteratee template processors name st) as [tr [err st'| |e]].
    + destruct Hit as (fn & e & Hsk & Htruthy & Herr & Hlast).
      destruct (truthy err) eqn:Hterr.
      * exists []. split; [simpl; lia|]. rewrite Hterr.
        exists fn. rewrite Hsk, <- Htruthy. split; [reflexivity|].
        rewrite Herr by congruence. exact Hlast.
      * destruct (IH st') as (fns & Hlen & Hrest).
        destruct (eachSeries names _ st') as [tr' r].
        exists (fn :: fns). split; [simpl; lia|].
        rewrite <- Htruthy in Hsk.
        destruct r as [err' st''| |e'].
        -- destruct (truthy err').
           ++ destruct Hrest as (fn' & Hsk' & Hlast').
              exists fn'. rewrite skeleton_app, Hsk, Hsk'. split; [reflexivity|].
              rewrite last_app, Hlast'. reflexivity.
           ++ destruct Hrest as (Hsk' & Hlen').
              rewrite skeleton_app, Hsk, Hsk'. split; [reflexivity|].
              simpl. now rewrite Hlen'.
        -- destruct Hrest as (fn' & Hsk'). exists fn'.
           now rewrite skeleton_app, Hsk, Hsk'.
        -- now rewrite skeleton_app, Hsk, Hrest.
    + exists []. split; [simpl; lia|]. exact Hit.
    + exists []. split; [simpl; lia|]. now rewrite Hit.
Qed.





End Hooks.


End EngineFacts.

(* ===================================================================== *)
(** ** Properties of the request/acknowledge engine *)
(* ===================================================================== *)

Module LegacyFacts.
Import Legacy LegacySpec.

Section Validation.
Variable JSON_stringify : value -> value.
Variable deepEqual : value -> value -> bool.
Variable captureOrMatch :
  response_spec -> value -> context -> option (value * capture_result).

Local Abbreviation processResponse :=
  (Legacy.processResponse JSON_stringify deepEqual captureOrMatch).



End Validation.


(** *** Correlation of requests and acknowledges *)

Section Correlation.
Variable template : value -> context -> value.
Variable JSON_stringify : value -> value.
Variable JSON_parse : string -> option value.
Variable deepEqual : value -> value -> bool.
Variable captureOrMatch :
  response_spec -> value -> context -> option (value * capture_result).

Local Abbreviation handleResponse_try :=
  (Legacy.handleResponse_try template JSON_stringify JSON_parse deepEqual
     captureOrMatch).
Local Abbreviation handleResponse_catch :=
  (Legacy.handleResponse_catch template JSON_stringify JSON_parse deepEqual
     captureOrMatch).
Local Abbreviation __handleResponse :=
  (Legacy.__handleResponse template JSON_stringify JSON_parse deepEqual
     captureOrMatch).
Local Abbreviation ackCallback :=
  (Legacy.ackCallback template JSON_stringify deepEqual captureOrMatch).
Local Abbreviation request_step :=
  (Legacy.request_step template JSON_stringify).

(** As written, the handler reads an unbound name on every message: the
    exception is caught and printed, and the engine is left as it was. *)
Lemma handleResponse_unbound topic message packet st :
  __handleResponse topic message packet st
  = ([ConsoleError "ERROR parsing web socket message"
        (reference_error "msg")], st).
Proof. reflexivity. Qed.


Lemma ackCallback_keeps_handlers cl arg st :
  responseHandlers (ackCallback cl arg st).1.2 = responseHandlers st.
Proof.
  unfold Legacy.ackCallback. destruct (acknowledge _); [|reflexivity].
  destruct (processResponse _ _ _ _ _ _) as [[tr c'] [err|]]; reflexivity.
Qed.

Lemma ackCallback_thrown_is_silent cl arg st e :
  (ackCallback cl arg st).2 = Thrown e -> (ackCallback cl arg st).1.1 = [].
Proof.
  unfold Legacy.ackCallback. destruct (acknowledge _); [|reflexivity].
  destruct (processResponse _ _ _ _ _ _) as [[tr c'] [err|]];
    simpl; intros Hthrown; discriminate Hthrown.
Qed.

Lemma handleResponse_try_keeps_ids msg st :
  dom (responseHandlers (handleResponse_try msg st).1.2)
  = dom (responseHandlers st).
Proof.
  unfold Legacy.handleResponse_try. destruct msg as [m|]; [|reflexivity].
  destruct (String.index 0 "|" m) as [i|]; [|reflexivity].
  destruct (String.eqb _ "41"); [|reflexivity].
  destruct (JSON_parse _) as [json|]; [|reflexivity].
  destruct (is_nullish json); [reflexivity|].
  destruct (responseHandlers st !! _) as [data|] eqn:Hdata; [|reflexivity].
  assert (Hdom : dom (<[to_key (get_prop json "id") :=
                        {| callback := callback data; executed := true;
                           hd_rpc := hd_rpc data |}]> (responseHandlers st))
                 = dom (responseHandlers st)).
  { rewrite dom_insert_L. apply elem_of_dom_2 in Hdata.
    apply subseteq_union_1_L, singleton_subseteq_l. exact Hdata. }
  destruct (is_nullish (get_prop json "p")); [exact Hdom|].
  rewrite ackCallback_keeps_handlers. exact Hdom.
Qed.

Lemma handleResponse_try_thrown_is_silent msg st e :
  (handleResponse_try msg st).2 = Thrown e ->
  (handleResponse_try msg st).1.1 = [].
Proof.
  unfold Legacy.handleResponse_try. destruct msg as [m|]; [|reflexivity].
  destruct (String.index 0 "|" m) as [i|]; [|reflexivity].
  destruct (String.eqb _ "41"); [|reflexivity].
  destruct (JSON_parse _) as [json|]; [|reflexivity].
  destruct (is_nullish json); [reflexivity|].
  destruct (responseHandlers st !! _) as [data|]; [|reflexivity].
  destruct (is_nullish (get_prop json "p")); [reflexivity|].
  apply ackCallback_thrown_is_silent.
Qed.

Lemma timer_fire_pending id st data :
  responseHandlers st !! id = Some data ->
  executed data = false ->
  timer_fire id st
  = ([Emit "error" [VStr (timeout_message (hd_rpc data))];
      StepCallback id (VError (timeout_message (hd_rpc data)))],
     set_handlers (delete id (responseHandlers st)) st, Normal).
Proof.
  intros Hdata Hex. unfold timer_fire. now rewrite Hdata, Hex.
Qed.

Lemma request_step_registers requestSpec st :
  isAcknowledgeRequired requestSpec = true ->
  In (SetTimeout (pretty (idCounter st + 1)) (timeout st))
     (request_step requestSpec st).1.1
  /\ responseHandlers (request_step requestSpec st).1.2
     !! pretty (idCounter st + 1)
     = Some {| callback := {| ac_spec := requestSpec;
                              ac_step := pretty (idCounter st + 1) |};
               executed := false;
               hd_rpc := rpc requestSpec |}.
Proof.
  intros Hack. unfold Legacy.request_step. rewrite Hack.
  destruct (ws (ctx st)); simpl; (split; [tauto|apply lookup_insert_eq]).
Qed.


(** C3, as amended.  However the handler comes to read the message, it
    is never fatal: an exception raised while the message is handled is
    caught and printed on the console, and such a message puts nothing on
    the event sink and settles nothing.  The handler never removes an
    entry from the pending map. *)
Theorem inbound_message_never_fatal
    (msg : option string) (topic message packet : string) (st : state) :
  dom (responseHandlers (handleResponse_catch msg st).2)
  = dom (responseHandlers st)
  /\ (forall e, (handleResponse_try msg st).2 = Thrown e ->
                (handleResponse_catch msg st).1
                = [ConsoleError "ERROR parsing web socket message" e])
  /\ dom (responseHandlers (__handleResponse topic message packet st).2)
     = dom (responseHandlers st)
  /\ count is_sink_error (__handleResponse topic message packet st).1
     = 0%nat.
Proof.
  assert (Hdom : forall b,
            dom (responseHandlers (handleResponse_catch b st).2)
            = dom (responseHandlers st)).
  { intros b. pose proof (handleResponse_try_keeps_ids b st) as H.
    unfold Legacy.handleResponse_catch.
    destruct (handleResponse_try b st) as [[tr st'] [|e]]; exact H. }
  split; [apply Hdom|]. split; [|split; [apply Hdom|]].
  - intros e He.
    pose proof (handleResponse_try_thrown_is_silent msg st e He) as Htr.
    unfold Legacy.handleResponse_catch.
    destruct (handleResponse_try msg st) as [[tr st'] compl].
    simpl in *. subst. reflexivity.
  - now rewrite handleResponse_unbound.
Qed.

(** C1, at the failing input.  A request is pending under id 1 and its
    acknowledge frame arrives before the timer: the handler reads the
    unbound [msg], prints the exception and leaves the entry unmarked;
    when the timer fires the step fails with a timeout although the
    response was received. *)
Theorem matching_frame_never_settles :
  let st1 := (request_step ping idle).1.2 in
  (exists data, responseHandlers st1 !! "1" = Some data
                /\ executed data = false)
  /\ __handleResponse "eko" reply_frame "" st1
     = ([ConsoleError "ERROR parsing web socket message"
           (reference_error "msg")], st1)
  /\ timer_fire "1" st1
     = ([Emit "error" [VStr "response timeout for ping"];
         StepCallback "1" (VError "response timeout for ping")],
        set_handlers (delete "1" (responseHandlers st1)) st1, Normal).
Proof.
  intros st1.
  destruct (request_step_registers ping idle eq_refl) as [_ Hreg].
  change (pretty (idCounter idle + 1)) with "1" in Hreg.
  split; [|split].
  - eexists. split; [exact Hreg|reflexivity].
  - apply handleResponse_unbound.
  - now rewrite (timer_fire_pending "1" st1 _ Hreg eq_refl).
Qed.
End Correlation.


Lemma inbound_message_never_fatal_witness :
  (handleResponse_catch no_render (fun v => v) parse_reply tag_equal
     no_capture None idle).1
  = [ConsoleError "ERROR parsing web socket message"
       (reference_error "msg")].
Proof.
  exact (proj1 (proj2 (inbound_message_never_fatal no_render (fun v => v)
                         parse_reply tag_equal no_capture None
                         "eko" "41|{" "" idle))
           (reference_error "msg") eq_refl).
Defined.

(** C3 as stated fails on a malformed frame: nothing reaches the event
    sink. *)
Lemma malformed_frame_not_reported_to_sink :
  ~ reported_to_sink
      (__handleResponse no_render (fun v => v) parse_reply tag_equal
         no_capture "eko" "41|{" "" idle).1.
Proof. unfold reported_to_sink. simpl. discriminate. Qed.

(** With [msg] bound to the frame, the handler marks the entry, leaves it
    in the map and does not look at the mark: the same frame delivered
    twice before the timer settles the step twice. *)
Lemma duplicate_frame_settles_twice :
  let handle :=
    handleResponse_try no_render (fun v => v) parse_reply tag_equal
      no_capture (Some reply_frame) in
  let st1 := (request_step no_render (fun v => v) ping idle).1.2 in
  let st2 := (handle st1).1.2 in
  (handle st1).1.1
  = [Emit "response" [VNum 0; VStr "vu-1"]; StepCallback "1" VNull]
  /\ (executed <$> responseHandlers st2 !! "1") = Some true
  /\ (handle st2).1.1
     = [Emit "response" [VNum 0; VStr "vu-1"]; StepCallback "1" VNull].
Proof. vm_compute. repeat split. Qed.

(** With [msg] bound to the frame, a frame that carries the id but no
    [p] marks the entry and then throws: the request is settled by
    neither the frame nor the timer. *)
Lemma marked_entry_is_never_settled :
  let frame := String.append "41|" "bare" in
  let handle :=
    handleResponse_try no_render (fun v => v)
      (parse_table [("bare", VObj [("id", VNum 1)])]) tag_equal
      no_capture (Some frame) in
  let st1 := (request_step no_render (fun v => v) ping idle).1.2 in
  let st2 := (handle st1).1.2 in
  (handle st1).1.1 = []
  /\ (timer_fire "1" st2).1.1 = [].
Proof. vm_compute. repeat split. Qed.

(** The transport listeners of this engine: the connect listener is not
    removed, so every later connect event invokes the continuation of
    the connect step again, and so does the first error after a
    connect. *)
Lemma legacy_reconnect_reinvokes_continuation
    template S parse deepEqual captureOrMatch e st :
  count (fun ev => match ev with InitCallback _ => true | _ => false end)
    (deliver template S parse deepEqual captureOrMatch registered
       [TConnect; TConnect; TError e] st).1 = 3%nat.
Proof. reflexivity. Qed.

(** The teardown of this engine closes the handle on failure too. *)
Lemma scenarioWaterfallCb_closes_on_error err c :
  client c = true ->
  scenarioWaterfallCb err (Some c) = [ClientEnd; FinalCallback err].
Proof. intros H. unfold scenarioWaterfallCb. now rewrite H. Qed.

End LegacyFacts.

(* ===================================================================== *)
(** ** Properties of the construction and of the path helper *)
(* ===================================================================== *)

Module SetupFacts.
Import Setup.

Lemma split_name_length s name after :
  split_name s = Some (name, after) ->
  String.length s = S (String.length name + String.length after).
Proof.
  revert name after. induction s as [|a s IH]; intros name after; [discriminate|].
  simpl. destruct (Ascii.eqb a "}").
  - intros [= <- <-]. reflexivity.
  - destruct (split_name s) as [[n r]|]; [|discriminate].
    intros [= <- <-]. simpl. now rewrite (IH n r eq_refl).
Qed.

Lemma placeholder_length s name after :
  placeholder s = Some (name, after) ->
  (String.length after < String.length s)%nat.
Proof.
  unfold placeholder. destruct s as [|a [|b rest]]; try discriminate.
  destruct (Ascii.eqb a "$" && Ascii.eqb b "{"); [|discriminate].
  destruct (split_name rest) as [[[|n nm] r]|] eqn:Hs; try discriminate.
  intros [= <- <-]. apply split_name_length in Hs. simpl in *. lia.
Qed.

(** Any fuel that covers the length gives the same result. *)
Lemma replace_go_fuel n m s :
  (String.length s <= n)%nat -> (String.length s <= m)%nat ->
  replace_go n s = replace_go m s.
Proof.
  revert m s. induction n as [|n IH]; intros m s Hn Hm.
  - destruct s; [|simpl in Hn; lia]. now destruct m.
  - destruct m as [|m].
    + destruct s; [reflexivity|simpl in Hm; lia].
    + cbn [replace_go]. destruct (placeholder s) as [[name after]|] eqn:Hp.
      * apply placeholder_length in Hp.
        rewrite (IH m after) by lia. reflexivity.
      * destruct s as [|a rest]; [reflexivity|].
        simpl in Hn, Hm. rewrite (IH m rest) by lia. reflexivity.
Qed.

Lemma replace_cons a rest :
  placeholder (String a rest) = None ->
  replace_placeholders (String a rest)
  = String a (replace_placeholders rest).
Proof.
  intros Hp. unfold replace_placeholders.
  cbn [String.length replace_go]. now rewrite Hp.
Qed.

Lemma replace_match s name after :
  placeholder s = Some (name, after) ->
  replace_placeholders s
  = String.append "{{ "
      (String.append name (String.append " }}" (replace_placeholders after))).
Proof.
  intros Hp. unfold replace_placeholders.
  pose proof (placeholder_length s name after Hp) as Hlen.
  destruct (String.length s) as [|n] eqn:Hs; [lia|].
  cbn [replace_go]. rewrite Hp.
  rewrite (replace_go_fuel n (String.length after) after) by lia.
  reflexivity.
Qed.

Lemma placeholder_needs_dollar a rest :
  Ascii.eqb a "$" = false -> placeholder (String a rest) = None.
Proof.
  intros Ha. unfold placeholder. destruct rest; [reflexivity|].
  now rewrite Ha.
Qed.

Lemma split_name_needs_brace s : lacks "}" s = true -> split_name s = None.
Proof.
  induction s as [|a s IH]; [reflexivity|]. simpl.
  destruct (Ascii.eqb a "}"); simpl; intros H; [discriminate H|].
  now rewrite (IH H).
Qed.

Lemma split_name_found name rest :
  lacks "}" name = true ->
  split_name (String.append name (String "}" rest)) = Some (name, rest).
Proof.
  induction name as [|a name IH]; simpl.
  - reflexivity.
  - destruct (Ascii.eqb a "}"); simpl; intros H; [discriminate H|].
    now rewrite (IH H).
Qed.

Lemma append_cons a s t :
  String.append (String a s) t = String a (String.append s t).
Proof. reflexivity. Qed.

(** X1.  The rewriting of the auth templates leaves a string alone when
    it has no dollar sign, and also when it has no closing brace. *)
Theorem replace_without_placeholder (s : string) :
  lacks "$" s = true \/ lacks "}" s = true ->
  replace_placeholders s = s.
Proof.
  intros [H|H].
  - induction s as [|a s IH]; [reflexivity|].
    simpl in H.
    destruct (Ascii.eqb a "$") eqn:Ha; [discriminate H|]. simpl in H.
    rewrite (replace_cons a s (placeholder_needs_dollar a s Ha)).
    now rewrite (IH H).
  - induction s as [|a s IH]; [reflexivity|].
    simpl in H. apply andb_prop in H as [Ha H].
    assert (Hp : placeholder (String a s) = None).
    { unfold placeholder. destruct s as [|b s']; [reflexivity|].
      destruct (Ascii.eqb a "$" && Ascii.eqb b "{"); [|reflexivity].
      simpl in H. apply andb_prop in H as [_ H].
      now rewrite (split_name_needs_brace s' H). }
    rewrite (replace_cons a s Hp). now rewrite (IH H).
Qed.

Lemma replace_without_placeholder_witness :
  replace_placeholders "client-{{ id }}" = "client-{{ id }}".
Proof.
  apply (replace_without_placeholder "client-{{ id }}").
  left. reflexivity.
Defined.

(** X2.  A placeholder written with a dollar and braces becomes one
    written with double braces: text without a dollar sign before it is
    kept, the name is any non-empty run without a closing brace, and the
    rewriting goes on after the closing brace. *)
Theorem replace_rewrites_placeholder (pre name rest : string) :
  lacks "$" pre = true ->
  lacks "}" name = true ->
  name <> EmptyString ->
  replace_placeholders
    (String.append pre
       (String.append "${" (String.append name (String "}" rest))))
  = String.append pre
      (String.append "{{ "
         (String.append name
            (String.append " }}" (replace_placeholders rest)))).
Proof.
  intros Hpre Hname Hne.
  induction pre as [|a pre IH].
  - apply replace_match.
    change (placeholder
              (String "$" (String "{" (String.append name (String "}" rest))))
            = Some (name, rest)).
    unfold placeholder. rewrite !Ascii.eqb_refl. cbn [andb].
    rewrite (split_name_found name rest Hname).
    destruct name; [contradiction|reflexivity].
  - simpl in Hpre.
    destruct (Ascii.eqb a "$") eqn:Ha; [discriminate Hpre|]. simpl in Hpre.
    rewrite !(append_cons a pre).
    rewrite replace_cons by now apply placeholder_needs_dollar.
    rewrite (IH Hpre). reflexivity.
Qed.

Lemma replace_rewrites_placeholder_witness :
  replace_placeholders "vu-${ id }-${n}"
  = String.append "vu-"
      (String.append "{{ "
         (String.append " id "
            (String.append " }}" (replace_placeholders "-${n}")))).
Proof.
  apply (replace_rewrites_placeholder "vu-" " id " "-${n}");
    [reflexivity|reflexivity|discriminate].
Defined.

Lemma convert_value_ok v :
  has_replace v = true ->
  convert_value v = inl (VStr (replace_placeholders (text_of v))).
Proof. destruct v; simpl; intros H; try discriminate H; reflexivity. Qed.

Lemma convert_value_throws v :
  has_replace v = false -> exists e, convert_value v = inr e.
Proof.
  destruct v; simpl; intros H; try discriminate H; eexists; reflexivity.
Qed.

Lemma convert_fields_spec fs :
  map fst (convert_fields fs).1 = map fst fs
  /\ ((convert_fields fs).2 = None
      <-> forallb has_replace (map snd fs) = true)
  /\ ((convert_fields fs).2 = None ->
      map snd (convert_fields fs).1
      = map (fun v => VStr (replace_placeholders (text_of v))) (map snd fs)).
Proof.
  induction fs as [|[k v] fs (Hkeys & Hiff & Hvals)].
  - repeat split; reflexivity.
  - cbn [convert_fields map fst snd forallb].
    destruct (has_replace v) eqn:Hv.
    + rewrite (convert_value_ok v Hv).
      destruct (convert_fields fs) as [rest e]. simpl in *.
      split; [now rewrite Hkeys|]. split; [exact Hiff|].
      intros H. now rewrite (Hvals H).
    + destruct (convert_value_throws v Hv) as [e ->]. simpl.
      split; [reflexivity|]. split; [|intros H; discriminate H].
      split; intros H; discriminate H.
Qed.

(** X3.  The constructor rewrites the fields of the auth block in place
    and in order: the keys stay as they are, whether or not it throws; it
    completes exactly when every value is a string, [null] or
    [undefined]; and then every value is the rewritten string, the empty
    string for [null] and [undefined]. *)
Theorem convert_auth_object (fs : list (string * value)) :
  exists fs',
    (convert_auth (VObj fs)).1 = VObj fs'
    /\ map fst fs' = map fst fs
    /\ ((convert_auth (VObj fs)).2 = None
        <-> forallb has_replace (map snd fs) = true)
    /\ ((convert_auth (VObj fs)).2 = None ->
        map snd fs'
        = map (fun v => VStr (replace_placeholders (text_of v)))
              (map snd fs)).
Proof.
  destruct (convert_fields_spec fs) as (Hkeys & Hiff & Hvals).
  unfold convert_auth. cbn [truthy].
  destruct (convert_fields fs) as [fs' e]. simpl in *.
  exists fs'. repeat split; auto; apply Hiff.
Qed.

Lemma convert_auth_object_witness :
  (convert_auth (VObj [("clientId", VStr "vu-${ id }"); ("password", VNull)])).2
  = None.
Proof.
  destruct (convert_auth_object
              [("clientId", VStr "vu-${ id }"); ("password", VNull)])
    as (fs' & _ & _ & Hiff & _).
  apply Hiff. reflexivity.
Defined.

(** *** The path helper *)

Lemma split_dot_nonempty s : split_dot s <> [].
Proof.
  destruct s as [|a s]; [discriminate|]. simpl.
  destruct (Ascii.eqb a "."); [discriminate|].
  destruct (split_dot s); discriminate.
Qed.

Lemma split_dot_single a : lacks "." a = true -> split_dot a = [a].
Proof.
  induction a as [|x a IH]; [reflexivity|]. simpl.
  destruct (Ascii.eqb x "."); simpl; intros H; [discriminate H|].
  now rewrite (IH H).
Qed.

Lemma split_dot_step a b :
  lacks "." a = true ->
  split_dot (String.append a (String "." b)) = a :: split_dot b.
Proof.
  induction a as [|x a IH].
  - intros _. change (split_dot (String "." b) = "" :: split_dot b).
    reflexivity.
  - rewrite append_cons. simpl.
    destruct (Ascii.eqb x "."); simpl; intros H; [discriminate H|].
    now rewrite (IH H).
Qed.

(** X4.  [_get] walks a dotted path one key at a time: on a value other
    than [null] and [undefined] the first key selects a member and the
    rest of the path is looked up in it; a path without a dot is a plain
    member access. *)
Theorem get_walks_path (object : value) (a b : string) :
  lacks "." a = true ->
  is_nullish object = false ->
  _get object (String.append a (String "." b)) = _get (member object a) b
  /\ _get object a = Returns (member object a).
Proof.
  intros Ha Hobj. unfold _get.
  rewrite (split_dot_step a b Ha), (split_dot_single a Ha).
  destruct object; try discriminate Hobj; split; reflexivity.
Qed.

Lemma get_walks_path_witness :
  _get (VObj [("mqtt", VObj [("clean", VBool true)])]) "mqtt.clean"
  = _get (VObj [("clean", VBool true)]) "clean".
Proof.
  exact (proj1 (get_walks_path (VObj [("mqtt", VObj [("clean", VBool true)])])
                  "mqtt" "clean" eq_refl eq_refl)).
Defined.

(** X5.  The loop of [_get] stops on [null] but not on [undefined]: a
    path through a key that is missing (or whose value is [undefined])
    throws instead of giving [undefined], whatever follows the key;
    through a [null] it gives [undefined]; at [null] itself every path
    gives [undefined]. *)
Theorem get_stops_on_null_only (object : value) (a b : string) :
  lacks "." a = true ->
  is_nullish object = false ->
  (member object a = VUndefined ->
   exists e, _get object (String.append a (String "." b)) = Throws e)
  /\ (member object a = VNull ->
      _get object (String.append a (String "." b)) = Returns VUndefined)
  /\ _get VNull b = Returns VUndefined.
Proof.
  intros Ha Hobj.
  assert (Hnull : _get VNull b = Returns VUndefined).
  { unfold _get. pose proof (split_dot_nonempty b).
    destruct (split_dot b); [contradiction|reflexivity]. }
  assert (Hstep : _get object (String.append a (String "." b))
                  = _get (member object a) b).
  { unfold _get. rewrite (split_dot_step a b Ha).
    destruct object; try discriminate Hobj; reflexivity. }
  rewrite Hstep. split; [|split; [|exact Hnull]].
  - intros ->. unfold _get. pose proof (split_dot_nonempty b).
    destruct (split_dot b); [contradiction|]. eexists. reflexivity.
  - intros ->. exact Hnull.
Qed.

Lemma get_stops_on_null_only_witness :
  exists e, _get (VObj [("mqtt", VObj [])]) "auth.clientId" = Throws e.
Proof.
  exact (proj1 (get_stops_on_null_only (VObj [("mqtt", VObj [])])
                  "auth" "clientId" eq_refl eq_refl) eq_refl).
Defined.

End SetupFacts.

(* ===================================================================== *)
(** ** Further properties of the publish engine *)
(* ===================================================================== *)

Module EngineMore.
Import Engine EngineSpec TransportSpec.

Lemma count_app p tr1 tr2 :
  count p (tr1 ++ tr2) = (count p tr1 + count p tr2)%nat.
Proof. unfold count. now rewrite List.filter_app, length_app. Qed.

Lemma occurrences_cons p ev evs :
  occurrences p (ev :: evs) = (once_if (p ev) + occurrences p evs)%nat.
Proof. unfold occurrences. simpl. now destruct (p ev). Qed.

(** What one transport event does to the listeners that are armed. *)
Lemma emit_to_listeners cl oc oe ev c :
  exists tr c',
    emit_to cl (listeners oc oe) ev c
    = (tr, listeners (oc && negb (is_connect ev)) (oe && negb (is_error ev)),
       c')
    /\ count is_init tr
       = (once_if (oc && is_connect ev) + once_if (oe && is_error ev))%nat
    /\ count is_error_emit tr = once_if (is_error ev)
    /\ count is_counter_emit tr
       = (once_if (oc && is_connect ev) + once_if (is_reconnect ev))%nat.
Proof.
  destruct oc, oe, ev; simpl; eexists _, _; repeat split.
Qed.

Lemma deliver_counts cl evs : forall oc oe c,
  count is_init (deliver cl (listeners oc oe) evs c).1
  = (once_if (oc && existsb is_connect evs)
     + once_if (oe && existsb is_error evs))%nat
  /\ count is_error_emit (deliver cl (listeners oc oe) evs c).1
     = occurrences is_error evs
  /\ count is_counter_emit (deliver cl (listeners oc oe) evs c).1
     = (once_if (oc && existsb is_connect evs)
        + occurrences is_reconnect evs)%nat.
Proof.
  induction evs as [|ev evs IH]; intros oc oe c.
  - simpl. destruct oc, oe; repeat split.
  - cbn [deliver].
    destruct (emit_to_listeners cl oc oe ev c)
      as (tr & c' & -> & Hinit & Herr & Hcnt).
    destruct (IH (oc && negb (is_connect ev)) (oe && negb (is_error ev)) c')
      as (IHinit & IHerr & IHcnt).
    destruct (deliver cl _ evs c') as [tr' c''].
    cbn [fst] in *. rewrite !count_app, !occurrences_cons.
    rewrite Hinit, Herr, Hcnt, IHinit, IHerr, IHcnt.
    cbn [existsb].
    destruct oc, oe, (is_connect ev) eqn:E1, (is_error ev) eqn:E2,
      (existsb is_connect evs), (existsb is_error evs);
      destruct ev; try discriminate; simpl; repeat split; lia.
Qed.

(** X6.  Over any sequence of transport events, the continuation of the
    connect step is invoked once for the first connect and once more for
    the first error, whichever comes first: at most twice, and never by
    a reconnect or a later error. *)
Theorem connect_continuation_calls
    (cl : client) (evs : list transport_event) (c : context) :
  count is_init (deliver cl registered evs c).1
  = (once_if (existsb is_connect evs) + once_if (existsb is_error evs))%nat.
Proof. apply (deliver_counts cl evs true true c). Qed.


(** *** The order of the hooks *)

Section HookOrder.
Variable template : value -> context -> value.
Variable JSON_stringify : value -> value.
Variable processors : option (gmap string processor).

Lemma called_app tr1 tr2 : called (tr1 ++ tr2) = called tr1 ++ called tr2.
Proof.
  induction tr1 as [|e tr1 IH]; [reflexivity|].
  destruct e; simpl; now rewrite ?IH.
Qed.

Lemma called_emits sent : called (emits sent) = [].
Proof. induction sent as [|e sent IH]; [reflexivity|exact IH]. Qed.

Lemma called_publish topic payload options c :
  called (publish JSON_stringify topic payload options c).1 = [].
Proof.
  unfold publish. destruct (mqtt c) as [cl|]; [|reflexivity].
  destruct (cl_publish cl _ _ _) as [error|]; [|reflexivity].
  now destruct (truthy error).
Qed.

Lemma eachSeries_called names c0 st :
  (forall n c1 c2, In n names -> template n c1 = template n c2) ->
  (exists k,
     called (eachSeries names (iteratee template processors) st).1
     = take k (map (fun n => to_key (template n c0)) names))
  /\ (forall err st',
        (eachSeries names (iteratee template processors) st).2
        = SeriesDone err st' ->
        truthy err = false ->
        called (eachSeries names (iteratee template processors) st).1
        = map (fun n => to_key (template n c0)) names).
Proof.
  revert st. induction names as [|name names IH]; intros st Hconst.
  - split; [now exists 0%nat|reflexivity].
  - assert (Hname : to_key (template name (hs_context st))
                    = to_key (template name c0)).
    { f_equal. apply Hconst. now left. }
    assert (Hrest : forall n c1 c2, In n names ->
                      template n c1 = template n c2).
    { intros n c1 c2 Hn. apply Hconst. now right. }
    cbn [eachSeries]. unfold iteratee at 1 3 5.
    destruct processors as [reg|];
      [|split; [now exists 0%nat|intros err st' H; discriminate H]].
    destruct (reg !! _) as [f|];
      [|split; [now exists 0%nat|intros err st' H; discriminate H]].
    set (r := as_hook f (hs_topic st) (hs_payload st) (hs_context st)).
    destruct (hr_reply r) as [e|].
    + destruct (truthy (if truthy e then e else VNull)) eqn:Herr.
      * cbn [fst snd]. rewrite called_app. cbn [called].
        rewrite called_emits. cbn [map app called]. rewrite Hname. split.
        -- exists 1%nat. cbn [take]. now rewrite take_0.
        -- intros err st' H Hf. injection H as H _. congruence.
      * set (st1 := {| hs_context := hr_context r;
                       hs_topic := after_mutation (hs_topic st) (hr_topic r);
                       hs_payload :=
                         after_mutation (hs_payload st) (hr_payload r) |}).
        destruct (IH st1 Hrest) as ((k & Hcalled) & Hdone).
        destruct (eachSeries names _ st1) as [tr' res]. cbn [fst snd] in *.
        rewrite !called_app. cbn [called]. rewrite called_emits.
        cbn [map app called]. rewrite Hname. split.
        -- exists (S k). cbn [take]. now rewrite Hcalled.
        -- intros err st' H Hf. now rewrite (Hdone err st' H Hf).
    + cbn [fst snd called]. rewrite called_emits. cbn [map].
      rewrite Hname. split.
      * exists 1%nat. cbn [take]. now rewrite take_0.
      * intros err st' H. discriminate H.
Qed.

(** X20.  For hook names that render the same in every context, the
    hooks of a publish step are called in the order in which they are
    listed, the scenario-level names before the step's own; the calls
    made are an initial part of that list, and all of it when the step
    reaches the transport publish. *)
Theorem hooks_called_in_listed_order
    (scenario_level step_level : list value) (p : publish_spec)
    (fuel : nat) (c : context) :
  p_beforeRequest p = VArr step_level ->
  (forall n c1 c2, In n (scenario_level ++ step_level) ->
                   template n c1 = template n c2) ->
  let r := publish_step template JSON_stringify processors
             (VArr scenario_level) p fuel c in
  let names := map (fun n => to_key (template n c))
                   (scenario_level ++ step_level) in
  (exists k, called r.1 = take k names)
  /\ (has_publish (skeleton r.1) = true -> called r.1 = names).
Proof.
  intros Hp Hconst r names. unfold r, publish_step, js_or, lodash_concat.
  rewrite Hp. cbn [truthy concat_arg].
  set (st0 := {| hs_context := c; hs_topic := _; hs_payload := _ |}).
  destruct (eachSeries_called (scenario_level ++ step_level) c st0 Hconst)
    as (Hcalled & Hdone).
  pose proof (EngineFacts.eachSeries_shape template processors
                (scenario_level ++ step_level) st0) as (fns & _ & Hshape).
  fold names in Hcalled, Hdone.
  destruct (eachSeries (scenario_level ++ step_level) _ st0)
    as [tr [err st'| |e]]; cbn [fst snd] in *.
  - destruct (truthy err) eqn:Herr.
    + split; [exact Hcalled|]. cbn [fst].
      destruct Hshape as (fn & -> & _).
      rewrite EngineFacts.has_publish_pairs. intros H; discriminate H.
    + pose proof (called_publish (hs_topic st') (hs_payload st')
                    (p_options p) (hs_context st')) as Hpub.
      destruct (publish JSON_stringify _ _ _ (hs_context st')) as [tr' o].
      cbn [fst] in *. rewrite called_app, Hpub, app_nil_r.
      rewrite (Hdone err st' eq_refl Herr).
      split; [|reflexivity].
      exists (length names). now rewrite firstn_all.
  - split; [exact Hcalled|]. cbn [fst].
    destruct Hshape as (fn & ->).
    rewrite EngineFacts.has_publish_pairs. intros H; discriminate H.
  - split; [exact Hcalled|]. cbn [fst]. rewrite Hshape.
    rewrite <- (app_nil_r (pairs fns)), EngineFacts.has_publish_pairs.
    intros H; discriminate H.
Qed.
End HookOrder.

Lemma hooks_called_in_listed_order_witness :
  exists k,
    called
      (publish_step no_render (fun v => v) (Some two_hooks) (VArr [])
         publish_with_hooks 0%nat
         (set_mqtt (client_replying VNull) fresh_context)).1
    = take k [to_key (VStr "h1"); to_key (VStr "h2")].
Proof.
  exact (proj1 (hooks_called_in_listed_order no_render (fun v => v)
                  (Some two_hooks) [] [VStr "h1"; VStr "h2"]
                  publish_with_hooks 0%nat
                  (set_mqtt (client_replying VNull) fresh_context)
                  eq_refl (fun _ _ _ _ => eq_refl))).
Defined.

(** *** The VU function as a whole *)

Section Scenario.
Variable template : value -> context -> value.
Variable JSON_stringify : value -> value.
Variable chalk_blue : value -> value.
Variable processors : option (gmap string processor).
Variable config_auth : value.

Local Abbreviation scenario :=
  (Engine.scenario template JSON_stringify chalk_blue processors config_auth).
Local Abbreviation compile_flow :=
  (Engine.compile_flow template JSON_stringify chalk_blue processors).
Local Abbreviation step :=
  (Engine.step template JSON_stringify chalk_blue processors).
Local Abbreviation vuInit := (Engine.vuInit template config_auth).

Lemma vuInit_with_auth cl evs c :
  Setup.is_nullish (template config_auth c) = false ->
  vuInit cl evs c
  = ((deliver cl registered evs c).1,
     first_init (deliver cl registered evs c).1).
Proof.
  intros H. unfold Engine.vuInit.
  destruct (deliver cl registered evs c) as [tr c'].
  destruct (template config_auth c); try discriminate H; reflexivity.
Qed.

(** X8.  When the transport reports an error before it connects, the VU
    fails at once: the final callback gets that error, once; no step of
    the flow runs and nothing is closed; the error also reaches the
    event sink.  These four events are all that happens. *)
Theorem connect_failure_fails_vu
    (sp : scenario_spec) (cl : client) (e : value) (fuel : nat)
    (c : context) :
  Setup.is_nullish (template config_auth c) = false ->
  truthy e = true ->
  scenario sp cl [TError e] fuel c
  ≡ₚ [Emit "started" [];
      FinalCallback e None;
      InitCallback e None;
      Emit "error" [js_or (get_prop e "message") (get_prop e "code")]].
Proof.
  intros Hauth He. unfold Engine.scenario.
  rewrite (vuInit_with_auth cl [TError e] c Hauth).
  simpl. rewrite He. simpl.
  apply Permutation_skip.
  change ([InitCallback e None;
           Emit "error" [js_or (get_prop e "message") (get_prop e "code")];
           FinalCallback e None])
    with ([InitCallback e None;
           Emit "error" [js_or (get_prop e "message") (get_prop e "code")]]
          ++ [FinalCallback e None]).
  now rewrite Permutation_app_comm.
Qed.

(** X9.  When the configuration has no auth block (its template renders
    to [undefined] or [null]), [vuInit] throws on reading the client id
    before it connects: the VU emits [started] and nothing else, and the
    final callback is never invoked. *)
Theorem missing_auth_stops_vu
    (sp : scenario_spec) (cl : client) (evs : list transport_event)
    (fuel : nat) (c : context) :
  Setup.is_nullish (template config_auth c) = true ->
  scenario sp cl evs fuel c = [Emit "started" []].
Proof.
  intros H. unfold Engine.scenario, Engine.vuInit.
  destruct (template config_auth c); try discriminate H; reflexivity.
Qed.

Lemma waterfall_app (ts1 ts2 : list task) fuel c :
  waterfall (ts1 ++ ts2) fuel c
  = match waterfall ts1 fuel c with
    | (tr, Ok c') =>
        let '(tr', o) := waterfall ts2 fuel c' in (tr ++ tr', o)
    | r => r
    end.
Proof.
  revert c. induction ts1 as [|t ts1 IH]; intros c.
  - simpl. now destruct (waterfall ts2 fuel c).
  - cbn [app waterfall]. destruct (t fuel c) as [tr o].
    destruct o; try reflexivity.
    rewrite IH. destruct (waterfall ts1 fuel c0) as [tr1 o1].
    destruct o1; try reflexivity.
    destruct (waterfall ts2 fuel c1) as [tr2 o2].
    now rewrite app_assoc.
Qed.

Lemma compile_flow_split sp :
  compile_flow sp
  = map (step (VArr (beforeRequest sp))) (before_and_flow sp)
    ++ map (step (VArr (beforeRequest sp)))
           (map function_spec (afterScenario sp)).
Proof.
  unfold Engine.compile_flow, before_and_flow.
  now rewrite app_assoc, map_app.
Qed.

(** X10.  The afterScenario hooks are ordinary steps at the end of the
    waterfall: when a beforeScenario hook or a step of the flow does not
    end with success (it fails, never answers or throws), the pipeline
    ends there and no afterScenario hook runs. *)
Theorem after_hooks_skipped_on_failure
    (sp : scenario_spec) (fuel : nat) (c : context)
    (tr : list event) (o : outcome) :
  waterfall (map (step (VArr (beforeRequest sp))) (before_and_flow sp))
            fuel c = (tr, o) ->
  (forall c', o <> Ok c') ->
  waterfall (compile_flow sp) fuel c = (tr, o).
Proof.
  intros Hrun Hfail. rewrite compile_flow_split, waterfall_app, Hrun.
  destruct o; try reflexivity. now destruct (Hfail c0).
Qed.

(** X11.  A beforeScenario hook whose name is not in the processor
    module is skipped without a trace: the pipeline behaves as if the
    hook had not been listed. *)
Theorem missing_before_hook_is_skipped
    (reg : gmap string processor) (name : value) (names : list value)
    (sp : scenario_spec) (fuel : nat) (c : context) :
  processors = Some reg ->
  reg !! to_key name = None ->
  waterfall (compile_flow (with_before (name :: names) sp)) fuel c
  = waterfall (compile_flow (with_before names sp)) fuel c.
Proof.
  intros Hreg Hmiss. unfold Engine.compile_flow. cbn [with_before
    beforeScenario afterScenario beforeRequest flow map app waterfall].
  assert (Hstep : step (VArr (beforeRequest sp)) (function_spec name) fuel c
                  = ([], Ok c)).
  { unfold function_spec. cbn [Engine.step]. simpl.
    destruct (truthy name); [|reflexivity].
    unfold function_step. now rewrite Hreg, Hmiss. }
  rewrite Hstep.
  now destruct (waterfall _ fuel c).
Qed.

(** X12.  A VU that connects and whose pipeline succeeds ends the
    transport once, after the last step, and hands the outcome of the
    close to the final callback: a close error fails the VU and is
    counted as [mqtt.error.close], a clean close is counted as
    [mqtt.close]. *)
Theorem success_closes_and_reports_close
    (sp : scenario_spec) (cl cl' : client) (fuel : nat) (c c' : context)
    (tr : list event) (err : value) :
  Setup.is_nullish (template config_auth c) = false ->
  waterfall (compile_flow sp) fuel (set_mqtt cl c) = (tr, Ok c') ->
  mqtt c' = Some cl' ->
  cl_end cl' = Some err ->
  scenario sp cl [TConnect] fuel c
  = [Emit "started" []; Emit "counter" [VStr "mqtt.connect"; VNum 1];
     InitCallback VNull (Some (set_mqtt cl c))]
    ++ tr
    ++ [MqttEnd;
        Emit "counter"
          [VStr (if truthy err then "mqtt.error.close" else "mqtt.close");
           VNum 1];
        FinalCallback err (Some c')].
Proof.
  intros Hauth Hrun Hc' Hend. unfold Engine.scenario.
  rewrite (vuInit_with_auth cl [TConnect] c Hauth).
  simpl. rewrite Hrun. simpl. now rewrite Hc', Hend.
Qed.
End Scenario.

Lemma connect_failure_fails_vu_witness :
  Engine.scenario no_render (fun v => v) (fun v => v) None (VObj [])
    one_publish (client_replying VNull) [TError (VError "refused")] 0
    fresh_context
  ≡ₚ [Emit "started" [];
      FinalCallback (VError "refused") None;
      InitCallback (VError "refused") None;
      Emit "error" [VStr "refused"]].
Proof.
  apply (connect_failure_fails_vu no_render (fun v => v) (fun v => v) None
           (VObj []) one_publish (client_replying VNull) (VError "refused")
           0%nat fresh_context); reflexivity.
Defined.

Lemma missing_auth_stops_vu_witness :
  Engine.scenario no_render (fun v => v) (fun v => v) None VUndefined
    one_publish (client_replying VNull) [TConnect] 0 fresh_context
  = [Emit "started" []].
Proof.
  apply (missing_auth_stops_vu no_render (fun v => v) (fun v => v) None
           VUndefined one_publish (client_replying VNull) [TConnect] 0%nat
           fresh_context).
  reflexivity.
Defined.

Lemma missing_before_hook_is_skipped_witness :
  waterfall
    (Engine.compile_flow no_render (fun v => v) (fun v => v) (Some ∅)
       (with_before [VStr "setup"] one_publish))
    0 fresh_context
  = waterfall
      (Engine.compile_flow no_render (fun v => v) (fun v => v) (Some ∅)
         (with_before [] one_publish))
      0 fresh_context.
Proof.
  apply (missing_before_hook_is_skipped no_render (fun v => v) (fun v => v)
           (Some ∅) ∅ (VStr "setup") [] one_publish 0%nat fresh_context);
    [reflexivity|apply lookup_empty].
Defined.

Lemma success_closes_and_reports_close_witness :
  let cl := client_replying VNull in
  Engine.scenario no_render (fun v => v) (fun v => v) None (VObj [])
    one_publish cl [TConnect] 0 fresh_context
  = [Emit "started" []; Emit "counter" [VStr "mqtt.connect"; VNum 1];
     InitCallback VNull (Some (set_mqtt cl fresh_context))]
    ++ [MqttPublish (VStr "sensor/data") (VStr "hello") VUndefined;
        Emit "counter" [VStr "mqtt.publish_count"; VNum 1];
        Emit "rate" [VStr "mqtt.publish_rate"]]
    ++ [MqttEnd; Emit "counter" [VStr "mqtt.close"; VNum 1];
        FinalCallback VNull (Some (set_mqtt cl fresh_context))].
Proof.
  intros cl.
  apply (success_closes_and_reports_close no_render (fun v => v)
           (fun v => v) None (VObj []) one_publish cl cl 0%nat
           fresh_context (set_mqtt cl fresh_context) _ VNull);
    reflexivity.
Defined.

Lemma after_hooks_skipped_on_failure_witness :
  let cl := client_replying (VError "not connected") in
  waterfall
    (compile_flow no_render (fun v => v) (fun v => v)
       (Some cleanup_registry) publish_then_cleanup)
    0 (set_mqtt cl fresh_context)
  = ([MqttPublish (VStr "sensor/data") (VStr "hello") VUndefined;
      Emit "error" [VStr "not connected"]],
     Fail (VError "not connected") None).
Proof.
  apply (after_hooks_skipped_on_failure no_render (fun v => v) (fun v => v)
           (Some cleanup_registry) publish_then_cleanup 0%nat).
  - reflexivity.
  - discriminate.
Defined.

End EngineMore.

(* ===================================================================== *)
(** ** Further properties of the request/acknowledge engine *)
(* ===================================================================== *)

Module LegacyMore.
Import Legacy LegacySpec CorrelationSpec.

Lemma legacy_count_app p tr1 tr2 :
  count p (tr1 ++ tr2) = (count p tr1 + count p tr2)%nat.
Proof. unfold count. now rewrite List.filter_app, length_app. Qed.

Section Engine.
Variable template : value -> context -> value.
Variable JSON_stringify : value -> value.
Variable JSON_parse : string -> option value.
Variable deepEqual : value -> value -> bool.
Variable captureOrMatch :
  response_spec -> value -> context -> option (value * capture_result).

Local Abbreviation deliver :=
  (Legacy.deliver template JSON_stringify JSON_parse deepEqual captureOrMatch).
Local Abbreviation request_step :=
  (Legacy.request_step template JSON_stringify).
Local Abbreviation processResponse :=
  (Legacy.processResponse JSON_stringify deepEqual captureOrMatch).
Local Abbreviation ackCallback :=
  (Legacy.ackCallback template JSON_stringify deepEqual captureOrMatch).

(** Inbound messages, as the handler is written, only print. *)
Lemma deliver_messages msgs st :
  deliver registered (map message_event msgs) st
  = (map (fun _ => ConsoleError "ERROR parsing web socket message"
                     (reference_error "msg")) msgs, st).
Proof.
  induction msgs as [|m msgs IH]; [reflexivity|].
  cbn [map Legacy.deliver]. unfold message_event at 1.
  cbn [Legacy.emit_to registered listens once andb].
  change (Legacy.run_listener template JSON_stringify JSON_parse deepEqual
            captureOrMatch OnMessage (TMessage m.1.1 m.1.2 m.2) st)
    with ([ConsoleError "ERROR parsing web socket message"
             (reference_error "msg")], st).
  cbn iota beta. fold registered. rewrite IH. reflexivity.
Qed.

Lemma no_callback_in_prints (msgs : list (string * string * string)) :
  count is_step_callback
    (map (fun _ => ConsoleError "ERROR parsing web socket message"
                     (reference_error "msg")) msgs) = 0%nat.
Proof. induction msgs as [|m msgs IH]; [reflexivity|exact IH]. Qed.

(** X13.  As the handler is written, a request that requires an
    acknowledge always ends in the timeout: whatever messages the
    transport delivers before the timer fires, none of them settles the
    step or touches the engine, and the timer then fails the step with
    the timeout error that names the method. *)
Theorem acknowledge_always_times_out
    (requestSpec : request_spec) (st : state)
    (msgs : list (string * string * string)) :
  isAcknowledgeRequired requestSpec = true ->
  let id := pretty (idCounter st + 1) in
  let err := timeout_message (rpc requestSpec) in
  let st1 := (request_step requestSpec st).1.2 in
  let inbound := deliver registered (map message_event msgs) st1 in
  inbound.2 = st1
  /\ count is_step_callback inbound.1 = 0%nat
  /\ count is_console_error inbound.1 = length msgs
  /\ timer_fire id inbound.2
     = ([Emit "error" [VStr err]; StepCallback id (VError err)],
        set_handlers (delete id (responseHandlers st1)) st1, Normal).
Proof.
  intros Hack id err st1 inbound. unfold inbound.
  rewrite deliver_messages. cbn [fst snd].
  split; [reflexivity|]. split; [apply no_callback_in_prints|]. split.
  - clear. induction msgs as [|m msgs IH]; [reflexivity|].
    unfold count in *. simpl. now rewrite IH.
  - assert (Hreg : responseHandlers st1 !! id
                   = Some {| callback := {| ac_spec := requestSpec;
                                            ac_step := id |};
                             executed := false;
                             hd_rpc := rpc requestSpec |}).
    { unfold st1, Legacy.request_step. rewrite Hack.
      destruct (ws (ctx st)); apply lookup_insert_eq. }
    unfold timer_fire. rewrite Hreg. reflexivity.
Qed.

Lemma match_events_are_not_errors ms :
  count is_sink_error (map match_event ms) = 0%nat
  /\ count is_response (map match_event ms) = 0%nat
  /\ count is_step_callback (map match_event ms) = 0%nat.
Proof.
  induction ms as [|m ms (H1 & H2 & H3)]; [repeat split|].
  repeat split; assumption.
Qed.



Lemma processResponse_trace data response c :
  count is_step_callback (processResponse data response c).1.1 = 0%nat
  /\ count is_response (processResponse data response c).1.1 = 0%nat.
Proof.
  unfold Legacy.processResponse.
  destruct (truthy (r_data response) && _); [split; reflexivity|].
  destruct (negb (truthy (r_capture response)) && _); [split; reflexivity|].
  destruct (captureOrMatch _ _ _) as [[err result]|]; [|split; reflexivity].
  destruct (truthy err); [split; reflexivity|].
  destruct (Nat.ltb 0 _); [split; reflexivity|].
  cbn [fst snd]. split; apply match_events_are_not_errors.
Qed.

(** X15.  The acknowledge callback ends in the continuation of its own
    step, at most once; the latency event [response] is emitted exactly
    when that continuation gets no error; and the pending map is left as
    it was. *)
Theorem ackCallback_settles_at_most_once
    (cl : ack_closure) (arg : value) (st : state) :
  let r := ackCallback cl arg st in
  (count is_step_callback r.1.1 <= 1)%nat
  /\ count is_response r.1.1 = count is_success_callback r.1.1
  /\ (forall k err, In (StepCallback k err) r.1.1 -> k = ac_step cl)
  /\ responseHandlers r.1.2 = responseHandlers st.
Proof.
  unfold Legacy.ackCallback.
  destruct (acknowledge (ac_spec cl)) as [a|];
    [|cbn; repeat split; auto; intros k err []].
  set (resp := {| r_data := _; r_capture := _; r_match := _ |}).
  pose proof (processResponse_trace (VObj [("0", arg)]) resp (ctx st))
    as [Hcb Hresp].
  assert (Hno : forall k err,
            ~ In (StepCallback k err)
                 (processResponse (VObj [("0", arg)]) resp (ctx st)).1.1).
  { intros k err Hin. unfold count in Hcb.
    assert (In (StepCallback k err)
              (List.filter is_step_callback
                 (processResponse (VObj [("0", arg)]) resp (ctx st)).1.1))
      as Hf by (apply filter_In; split; [exact Hin|reflexivity]).
    destruct (List.filter _ _); [destruct Hf|discriminate Hcb]. }
  assert (Hsucc : count is_success_callback
                    (processResponse (VObj [("0", arg)]) resp (ctx st)).1.1
                  = 0%nat).
  { unfold count in *.
    destruct (List.filter is_success_callback _) as [|e l] eqn:Hl;
      [reflexivity|].
    assert (In e (e :: l)) as Hin by now left.
    rewrite <- Hl in Hin. apply filter_In in Hin as [Hin He].
    destruct e; try discriminate He. now apply Hno in Hin. }
  destruct (processResponse _ resp (ctx st)) as [[tr c'] [err|]];
    cbn [fst snd] in *.
  - rewrite !legacy_count_app, Hcb, Hresp, Hsucc.
    destruct (truthy err) eqn:Herr; cbn; rewrite ?Herr; cbn.
    + repeat split; auto.
      intros k e Hin. apply in_app_or in Hin as [Hin|[Hin|[]]];
        [now apply Hno in Hin|]. now inversion Hin.
    + repeat split; auto.
      intros k e Hin. apply in_app_or in Hin as [Hin|[Hin|[Hin|[]]]];
        [now apply Hno in Hin|discriminate Hin|]. now inversion Hin.
  - rewrite Hcb, Hresp, Hsucc. repeat split; auto.
    intros k e Hin. now apply Hno in Hin.
Qed.

(** X16.  Two requests issued one after the other are registered under
    different ids, and the second registration leaves the first entry in
    place: both are pending, each with its own method. *)
Theorem successive_requests_have_distinct_ids
    (first second : request_spec) (st : state) :
  isAcknowledgeRequired first = true ->
  isAcknowledgeRequired second = true ->
  let st1 := (request_step first st).1.2 in
  let st2 := (request_step second st1).1.2 in
  let id1 := pretty (idCounter st + 1) in
  let id2 := pretty (idCounter st + 2) in
  id1 <> id2
  /\ (exists d, responseHandlers st2 !! id1 = Some d
                /\ hd_rpc d = rpc first /\ executed d = false)
  /\ (exists d, responseHandlers st2 !! id2 = Some d
                /\ hd_rpc d = rpc second /\ executed d = false).
Proof.
  intros H1 H2 st1 st2 id1 id2.
  assert (Hne : id1 <> id2).
  { unfold id1, id2. intros Heq. apply (inj pretty) in Heq. lia. }
  assert (Hcount : idCounter st1 = idCounter st + 1).
  { unfold st1, Legacy.request_step. rewrite H1.
    destruct (ws (ctx st)); reflexivity. }
  assert (Hst1 : responseHandlers st1 !! id1
                 = Some {| callback := {| ac_spec := first; ac_step := id1 |};
                           executed := false; hd_rpc := rpc first |}).
  { unfold st1, Legacy.request_step. rewrite H1.
    destruct (ws (ctx st)); apply lookup_insert_eq. }
  assert (Hst2 : responseHandlers st2
                 = <[id2 := {| callback := {| ac_spec := second;
                                              ac_step := id2 |};
                               executed := false; hd_rpc := rpc second |}]>
                     (responseHandlers st1)).
  { unfold st2, Legacy.request_step. rewrite H2, Hcount.
    replace (idCounter st + 1 + 1) with (idCounter st + 2) by lia.
    destruct (ws (ctx st1)); reflexivity. }
  split; [exact Hne|]. rewrite Hst2. split.
  - rewrite lookup_insert_ne by congruence. rewrite Hst1.
    eexists. repeat split.
  - rewrite lookup_insert_eq. eexists. repeat split.
Qed.

(** X17.  A request step on a context without [ws] throws when it comes
    to send, and nothing is sent.  When the request requires an
    acknowledge, the pending entry and the timer are already in place by
    then: the step that threw is called back later by its timer, with
    the timeout error. *)
Theorem request_without_socket_throws
    (requestSpec : request_spec) (st : state) :
  ws (ctx st) = None ->
  let id := pretty (idCounter st + 1) in
  let err := timeout_message (rpc requestSpec) in
  let r := request_step requestSpec st in
  is_thrown r.2 = true
  /\ count is_ws_send r.1.1 = 0%nat
  /\ count is_step_callback r.1.1 = 0%nat
  /\ (isAcknowledgeRequired requestSpec = true ->
      In (SetTimeout id (timeout st)) r.1.1
      /\ (timer_fire id r.1.2).1.1
         = [Emit "error" [VStr err]; StepCallback id (VError err)])
  /\ (isAcknowledgeRequired requestSpec = false ->
      responseHandlers r.1.2 = responseHandlers st).
Proof.
  clear JSON_parse deepEqual captureOrMatch.
  intros Hws id err r. unfold r, Legacy.request_step. rewrite Hws.
  destruct (isAcknowledgeRequired requestSpec); cbn [fst snd].
  - repeat split; try discriminate.
    + simpl. tauto.
    + unfold timer_fire. cbn [responseHandlers set_handlers].
      fold id. rewrite lookup_insert_eq. reflexivity.
  - repeat split; discriminate.
Qed.

(** X18.  The connect listener of this engine stores the client under
    [context.client] and leaves [context.ws] alone, while the request
    step sends through [context.ws]: in a VU whose initial context has
    no [ws], every request step after the connect throws. *)
Theorem request_after_connect_throws
    (requestSpec : request_spec) (st : state) :
  ws (ctx st) = None ->
  let connected := deliver registered [TConnect] st in
  connected.1 = [InitCallback VNull]
  /\ client (ctx connected.2) = true
  /\ ws (ctx connected.2) = None
  /\ is_thrown (request_step requestSpec connected.2).2 = true.
Proof.
  intros Hws connected.
  assert (Hc : connected
               = ([InitCallback VNull],
                  set_ctx {| vars := vars (ctx st); ws := ws (ctx st);
                             client := true;
                             _successCount := _successCount (ctx st);
                             _uid := _uid (ctx st) |} st))
    by reflexivity.
  rewrite Hc. cbn [fst snd ctx set_ctx client ws].
  split; [reflexivity|]. split; [reflexivity|]. split; [exact Hws|].
  unfold Legacy.request_step. cbn [ctx set_ctx ws]. rewrite Hws.
  now destruct (isAcknowledgeRequired requestSpec).
Qed.

(** X19.  When its entry is in the pending map, the timer removes that
    entry and no other, and calls the step back exactly when no frame
    has marked the entry.  When the entry is not in the map the timer
    throws, because it reads the method before it tests the entry. *)
Theorem timer_fire_removes_own_entry (id : string) (st : state) :
  match responseHandlers st !! id with
  | Some data =>
      (timer_fire id st).2 = Normal
      /\ responseHandlers (timer_fire id st).1.2 = delete id (responseHandlers st)
      /\ (forall k, k <> id ->
            responseHandlers (timer_fire id st).1.2 !! k
            = responseHandlers st !! k)
      /\ responseHandlers (timer_fire id st).1.2 !! id = None
      /\ count is_step_callback (timer_fire id st).1.1
         = once_if (negb (executed data))
  | None =>
      (timer_fire id st).1 = ([], st)
      /\ is_thrown (timer_fire id st).2 = true
  end.
Proof.
  unfold timer_fire. destruct (responseHandlers st !! id) as [data|].
  - destruct (executed data); cbn [fst snd negb responseHandlers set_handlers];
      (split; [reflexivity|]); (split; [reflexivity|]);
      (split; [intros k Hk; now apply lookup_delete_ne|]);
      (split; [apply lookup_delete_eq|reflexivity]).
  - split; reflexivity.
Qed.
End Engine.

Lemma request_without_socket_throws_witness :
  is_thrown (Legacy.request_step no_render (fun v => v) ping fresh_engine).2
  = true.
Proof.
  exact (proj1 (request_without_socket_throws no_render (fun v => v) ping
                  fresh_engine eq_refl)).
Defined.

Lemma request_after_connect_throws_witness :
  is_thrown
    (Legacy.request_step no_render (fun v => v) ping
       (Legacy.deliver no_render (fun v => v) parse_reply tag_equal
          no_capture registered [TConnect] fresh_engine).2).2 = true.
Proof.
  exact (proj2 (proj2 (proj2
           (request_after_connect_throws no_render (fun v => v) parse_reply
              tag_equal no_capture ping fresh_engine eq_refl)))).
Defined.

Lemma successive_requests_have_distinct_ids_witness :
  "1" <> "2".
Proof.
  exact (proj1 (successive_requests_have_distinct_ids no_render (fun v => v)
                  ping ping idle eq_refl eq_refl)).
Defined.

Lemma acknowledge_always_times_out_witness :
  timer_fire "1"
    (Legacy.deliver no_render (fun v => v) parse_reply tag_equal no_capture
       registered (map message_event [("eko", reply_frame, "")])
       (Legacy.request_step no_render (fun v => v) ping idle).1.2).2
  = ([Emit "error" [VStr "response timeout for ping"];
      StepCallback "1" (VError "response timeout for ping")],
     set_handlers
       (delete "1"
          (responseHandlers
             (Legacy.request_step no_render (fun v => v) ping idle).1.2))
       (Legacy.request_step no_render (fun v => v) ping idle).1.2,
     Normal).
Proof.
  exact (proj2 (proj2 (proj2
           (acknowledge_always_times_out no_render (fun v => v) parse_reply
              tag_equal no_capture ping idle [("eko", reply_frame, "")]
              eq_refl)))).
Defined.

End LegacyMore.
